(** * sangha: the semantic-conditioning experiment, embedded and verified

    The repository holds three Python programs:
    - [semantic_conditioning_test.py], the trial orchestrator;
    - [evaluate_quality.py], the interactive blind scoring session;
    - [reveal_results.py], the analyzer of the scores.

    Each program is embedded below in a module of its own.  A Python [str] is
    a Rocq [string] holding the UTF-8 bytes of the text, one [ascii] per
    character in ASCII; a Python [dict] whose iteration order matters is an
    association list, the others are [gmap]s; the outside world (generation
    service, subprocesses, clock, random source, keyboard) is an explicit
    oracle indexed by the number of interactions that happened before. *)

From Stdlib Require Import Ascii NArith ZArith QArith Reals Lra Lia.
From stdpp Require Import base option list strings gmap.

(** ** The fragment of the Python runtime the programs rely on *)

Module Py.

(** The newline character and the one-character string holding it. *)
Definition newline : ascii := Ascii.ascii_of_nat 10.
Definition nl : string := String newline "".

(** Exceptions, all of them subclasses of [Exception]; [exn_str] is what
    [str(e)] gives. *)
Inductive ExnClass :=
  | TimeoutExpired | IndexError | KeyError | ZeroDivisionError
  | EOFError | ValueError | OtherException (name : string).

Record Exn := { exn_class : ExnClass; exn_str : string }.

#[global] Instance ExnClass_eq_dec : EqDecision ExnClass.
Proof. solve_decision. Defined.

(** A computation either returns or raises. *)
Inductive Exc (A : Type) :=
  | Ok (a : A)
  | Raise (e : Exn).
Arguments Ok {A} a.
Arguments Raise {A} e.

(** Interactions with the world are numbered: a computation receives the
    number of interactions so far and returns the new count. *)
Definition Run (A : Type) : Type := nat -> A * nat.

Definition ret {A} (a : A) : Run A := fun t => (a, t).

Definition bind {A B} (m : Run A) (k : A -> Run B) : Run B :=
  fun t => let '(a, t') := m t in k a t'.

(** One interaction: ask the oracle at the current count. *)
Definition event {A} (oracle : nat -> A) : Run A := fun t => (oracle t, S t).

(** Sequencing that propagates a raised exception. *)
Definition bindE {A B} (m : Run (Exc A)) (k : A -> Run (Exc B)) : Run (Exc B) :=
  bind m (fun r => match r with Ok a => k a | Raise e => ret (Raise e) end).

Declare Scope run_scope.
Delimit Scope run_scope with run.
Notation "x <~ m ;; k" := (bind m (fun x => k))
  (at level 100, m at next level, right associativity) : run_scope.
Notation "x <~? m ;; k" := (bindE m (fun x => k))
  (at level 100, m at next level, right associativity) : run_scope.

(** [s[:n]] for a text of ASCII characters, such as a hexadecimal digest:
    its first [n] bytes. *)
Definition slice_to (n : nat) (s : string) : string := String.substring 0 n s.

(** Text outside ASCII is held as its UTF-8 bytes: a character is a byte
    that is no continuation byte, with the continuation bytes after it. *)
Definition is_continuation (c : ascii) : bool :=
  let n := Ascii.nat_of_ascii c in (128 <=? n) && (n <? 192).

(** [len(s)]: the number of characters. *)
Fixpoint len (s : string) : nat :=
  match s with
  | String c s' => (if is_continuation c then 0 else 1) + len s'
  | EmptyString => 0
  end.

(** [s[:n]] for any text: a character is kept with its continuation
    bytes. *)
Fixpoint slice_chars_to (n : nat) (s : string) : string :=
  match s with
  | EmptyString => EmptyString
  | String c s' =>
      if is_continuation c then String c (slice_chars_to n s')
      else match n with
           | O => EmptyString
           | S k => String c (slice_chars_to k s')
           end
  end.

Definition starts_with_continuation (ch : string) : bool :=
  match ch with
  | String c _ => is_continuation c
  | EmptyString => false
  end.

(** The characters of a text, each as its bytes, and the text back. *)
Fixpoint chars (s : string) : list string :=
  match s with
  | EmptyString => []
  | String c s' =>
      match chars s' with
      | ch :: rest =>
          if starts_with_continuation ch then String c ch :: rest
          else String c "" :: ch :: rest
      | [] => [String c ""]
      end
  end.

Definition unchars (l : list string) : string := foldr String.append "" l.

Definition byte (c : ascii) : N := N.of_nat (Ascii.nat_of_ascii c).

(** The code point of a character; [None] for bytes that encode none. *)
Definition code_point (ch : string) : option N :=
  match byte <$> String.list_ascii_of_string ch with
  | [b0] => if (b0 <? 128)%N then Some b0 else None
  | [b0; b1] =>
      let n := ((b0 - 192) * 64 + (b1 - 128))%N in
      if ((192 <=? b0) && (b0 <? 224) && (128 <=? n))%N then Some n else None
  | [b0; b1; b2] =>
      let n := ((b0 - 224) * 4096 + (b1 - 128) * 64 + (b2 - 128))%N in
      if ((224 <=? b0) && (b0 <? 240) && (2048 <=? n))%N then Some n else None
  | [b0; b1; b2; b3] =>
      let n := ((b0 - 240) * 262144 + (b1 - 128) * 4096 + (b2 - 128) * 64
                + (b3 - 128))%N in
      if ((240 <=? b0) && (b0 <? 248) && (65536 <=? n) && (n <=? 1114111))%N
      then Some n else None
  | _ => None
  end.

Definition between (lo hi n : N) : bool := ((lo <=? n) && (n <=? hi))%N.

(** [str.isspace] of a code point: the white space of ASCII (U+0009 to
    U+000D, U+001C to U+0020), U+0085, U+00A0, U+1680, U+2000 to U+200A,
    U+2028, U+2029, U+202F, U+205F and U+3000. *)
Definition is_space (n : N) : bool :=
  between 9 13 n || between 28 32 n || (n =? 133)%N || (n =? 160)%N
  || (n =? 5760)%N || between 8192 8202 n || between 8232 8233 n
  || (n =? 8239)%N || (n =? 8287)%N || (n =? 12288)%N.

Definition space_char (ch : string) : bool :=
  match code_point ch with
  | Some n => is_space n
  | None => false
  end.

Fixpoint lstrip_chars (l : list string) : list string :=
  match l with
  | ch :: l' => if space_char ch then lstrip_chars l' else l
  | [] => []
  end.

Definition rstrip_chars (l : list string) : list string :=
  reverse (lstrip_chars (reverse l)).

(** [s.strip()]: the text without the white space at its two ends. *)
Definition strip (s : string) : string :=
  unchars (rstrip_chars (lstrip_chars (chars s))).

(** [s.lower()] on the ASCII range.  Outside ASCII a letter may become
    another letter, but never [q], [s], a digit, a sign, an underscore, a
    comma or white space, which is all the scoring session looks at. *)
Definition lower_char (c : ascii) : ascii :=
  let n := Ascii.nat_of_ascii c in
  if (65 <=? n) && (n <=? 90) then Ascii.ascii_of_nat (n + 32) else c.

Fixpoint lower (s : string) : string :=
  match s with
  | String c s' => String (lower_char c) (lower s')
  | EmptyString => EmptyString
  end.

(** [sub in s] *)
Fixpoint contains (sub s : string) : bool :=
  String.prefix sub s ||
  match s with
  | String _ s' => contains sub s'
  | EmptyString => false
  end.

(** [s.split(sep)] for a non-empty separator: [cur] is the piece being read,
    [skip] the number of characters of a matched separator still to pass. *)
Fixpoint split_go (sep : string) (skip : nat) (cur s : string) : list string :=
  match s with
  | EmptyString => [cur]
  | String c s' =>
      match skip with
      | S k => split_go sep k cur s'
      | O =>
          if String.prefix sep s
          then cur :: split_go sep (String.length sep - 1) "" s'
          else split_go sep 0 (cur +:+ String c "") s'
      end
  end.

Definition split (sep s : string) : list string := split_go sep 0 "" s.

(** [l[i]], raising [IndexError] out of range. *)
Definition index {A} (l : list A) (i : nat) : Exc A :=
  match l !! i with
  | Some x => Ok x
  | None => Raise {| exn_class := IndexError; exn_str := "list index out of range" |}
  end.

(** The code points of the digit zero of every decimal script (Unicode
    14.0, the data of CPython 3.11); its nine other digits follow each. *)
Definition decimal_zeros : list N :=
  [48; 1632; 1776; 1984; 2406; 2534; 2662; 2790; 2918; 3046; 3174; 3302; 3430;
   3558; 3664; 3792; 3872; 4160; 4240; 6112; 6160; 6470; 6608; 6784; 6800; 6992;
   7088; 7232; 7248; 42528; 43216; 43264; 43472; 43504; 43600; 44016; 65296;
   66720; 68912; 69734; 69872; 69942; 70096; 70384; 70736; 70864; 71248; 71360;
   71472; 71904; 72016; 72784; 73040; 73120; 92768; 92864; 93008; 120782; 120792;
   120802; 120812; 120822; 123200; 123632; 125264; 130032]%N.

(** [unicodedata.decimal] of a code point. *)
Definition decimal (n : N) : option Z :=
  (fun zero => Z.of_N (n - zero))
    <$> find (fun zero => between zero (zero + 9) n) decimal_zeros.

(** What [int] reads in place of a character: the character itself in
    ASCII, a blank for white space, the ASCII digit of a decimal digit, a
    question mark for anything else. *)
Definition to_ascii (ch : string) : ascii :=
  match ch with
  | String c EmptyString => if Ascii.nat_of_ascii c <? 127 then c else "?"%char
  | _ =>
      match code_point ch with
      | Some n =>
          if is_space n then " "%char
          else match decimal n with
               | Some d => Ascii.ascii_of_nat (48 + Z.to_nat d)
               | None => "?"%char
               end
      | None => "?"%char
      end
  end.

(** The white space of the C locale, which [int] passes over at both
    ends. *)
Definition c_space (c : ascii) : bool :=
  let n := Ascii.nat_of_ascii c in ((9 <=? n) && (n <=? 13)) || (n =? 32).

Fixpoint all_c_space (s : string) : bool :=
  match s with
  | String c s' => c_space c && all_c_space s'
  | EmptyString => true
  end.

Fixpoint lstrip_c (s : string) : string :=
  match s with
  | String c s' => if c_space c then lstrip_c s' else s
  | EmptyString => EmptyString
  end.

Definition digit_of (c : ascii) : option Z :=
  let n := Ascii.nat_of_ascii c in
  if (48 <=? n) && (n <=? 57) then Some (Z.of_nat (n - 48)) else None.

(** The digits, with single underscores between digits, then white space
    to the end; more than 4300 digits are refused (the default limit of
    [sys.set_int_max_str_digits]). *)
Fixpoint digits_value (acc : Z) (after_digit : bool) (digits : nat) (s : string)
  : option Z :=
  match s with
  | EmptyString => if after_digit && (digits <=? 4300) then Some acc else None
  | String c s' =>
      if Ascii.eqb c "_"
      then if after_digit then digits_value acc false digits s' else None
      else match digit_of c with
           | Some d => digits_value (10 * acc + d) true (S digits) s'
           | None =>
               if after_digit && (digits <=? 4300) && all_c_space s
               then Some acc else None
           end
  end.

(** [int(s)] in base ten: white space, an optional sign, the digits, white
    space; [None] stands for [ValueError]. *)
Definition int (s : string) : option Z :=
  match lstrip_c (String.string_of_list_ascii (to_ascii <$> chars s)) with
  | String "+" r => digits_value 0 false 0 r
  | String "-" r => Z.opp <$> digits_value 0 false 0 r
  | t => digits_value 0 false 0 t
  end.

(** A [dict] with string keys, in insertion order. *)
Definition dict (V : Type) : Type := list (string * V).

Fixpoint dict_get {V} (d : dict V) (k : string) : option V :=
  match d with
  | [] => None
  | (k', v) :: d' => if decide (k' = k) then Some v else dict_get d' k
  end.

(** [d[k] = v]: a present key keeps its place. *)
Fixpoint dict_set {V} (d : dict V) (k : string) (v : V) : dict V :=
  match d with
  | [] => [(k, v)]
  | (k', v') :: d' =>
      if decide (k' = k) then (k, v) :: d' else (k', v') :: dict_set d' k v
  end.

Definition keys {V} (d : dict V) : list string := d.*1.

(** [d[k].append(v)] on a [defaultdict(list)]. *)
Definition dict_append {V} (d : dict (list V)) (k : string) (v : V) : dict (list V) :=
  dict_set d k (default [] (dict_get d k) ++ [v]).

(** [random.shuffle]: for [i] from [len(x) - 1] down to [1], swap [x[i]] with
    [x[j]] for a fresh [j = randbelow(i + 1)]: the draw made at the current
    interaction, reduced modulo [i + 1]. *)
Definition swap {A} (x : list A) (i j : nat) : list A :=
  match x !! i, x !! j with
  | Some xi, Some xj => <[i := xj]> (<[j := xi]> x)
  | _, _ => x
  end.

Fixpoint shuffle_from {A} (draw : nat -> nat) (i : nat) (x : list A) : Run (list A) :=
  match i with
  | O => ret x
  | S i' =>
      (r <~ event draw ;;
       shuffle_from draw i' (swap x i (r mod (i + 1))))%run
  end.

Definition shuffle {A} (draw : nat -> nat) (x : list A) : Run (list A) :=
  shuffle_from draw (length x - 1) x.

End Py.

(** ** semantic_conditioning_test.py *)

Module Conditioning.
Import Py.

Record Condition := { name : string; prefix : string; suffix : string }.

#[global] Instance Condition_eq_dec : EqDecision Condition.
Proof. solve_decision. Defined.

Definition CONDITIONS : list Condition :=
  [ {| name := "control"; prefix := ""; suffix := "" |};
    {| name := "common_english";
       prefix := "Write high-quality, production-ready code." +:+ nl +:+ nl;
       suffix := "" |};
    {| name := "greek_arete";
       prefix := "Write code embodying ἀρετή (excellence)." +:+ nl +:+ nl;
       suffix := "" |};
    {| name := "japanese_shokunin";
       prefix := "Write code with 職人気質 (craftsman spirit)." +:+ nl +:+ nl;
       suffix := "" |};
    {| name := "combined";
       prefix := "Write code embodying ἀρετή and 職人気質." +:+ nl +:+ nl;
       suffix := "" |} ].

Definition SELECTED_PROBLEMS : list string :=
  [ "HumanEval/2"; "HumanEval/4"; "HumanEval/11"; "HumanEval/22"; "HumanEval/29" ].

Record TrialResult := {
  problem_id : string;
  condition : string;
  completion : string;
  passed : bool;
  error : option string;
  timestamp : string;
  blind_id : string
}.

(** The value stored for a problem, and a record of the benchmark. *)
Record Problem := {
  prompt : string;
  test : string;
  entry_point : string;
  canonical_solution : string
}.

Record Item := { task_id : string; item_problem : Problem }.

(** A row of the blind-evaluation file: a result without its condition, with
    the prompt of its problem. *)
Module Blind.

Record Entry := {
  blind_id : string;
  problem_id : string;
  prompt : string;
  completion : string;
  passed : bool
}.

End Blind.

Definition load_humaneval_problems (ds : list Item) (problem_ids : list string)
  : dict Problem :=
  foldl (fun problems item =>
           if decide (task_id item ∈ problem_ids)
           then dict_set problems (task_id item) (item_problem item)
           else problems)
        [] ds.

(** What is sent to the generation service. *)
Record Request := {
  model : string;
  max_tokens : Z;
  messages : list (string * string);
  temperature : Q
}.

(** [datetime.now()], in the two formats the program prints it. *)
Record Instant := { isoformat : string; strftime : string }.

(** A finished subprocess. *)
Record CompletedProcess := { returncode : Z; stderr : string }.

(** The world of the trials: the benchmark once it is loaded, and the
    oracles.  Every oracle takes the number of the interaction: the reply of
    the service to a request (the text of each content block), the path of a
    temporary file once the program is written to it, the run of a command
    under a timeout, the removal of a file, the clock, the text of
    [random.random()], the draws behind [random.shuffle], and the hash
    function.  What can fail before the first trial and at the three writes
    is in [Host] below. *)
Record World := {
  dataset : list Item;
  messages_create : nat -> Request -> Exc (list string);
  write_temp : nat -> string -> Exc string;
  subprocess_run : nat -> list string -> Q -> Exc CompletedProcess;
  unlink : nat -> string -> Exc unit;
  now : nat -> Instant;
  random : nat -> string;
  randbelow : nat -> nat;
  sha256_hexdigest : string -> string
}.

Section Orchestrator.
Context (w : World).

Definition full_prompt (prompt : string) (condition : Condition) : string :=
  prefix condition +:+ "Complete the following Python function:" +:+ nl +:+ nl
    +:+ prompt +:+ suffix condition.

Definition request_of (prompt : string) (condition : Condition) (model : string)
  : Request :=
  {| model := model;
     max_tokens := 1024;
     messages := [("user", full_prompt prompt condition)];
     temperature := 7 # 10 |}.

(** The code between the first fence and the next one, when there is one. *)
Definition fenced (fence content : string) : Exc string :=
  match index (split fence content) 1 with
  | Ok after => index (split "```" after) 0
  | Raise e => Raise e
  end.

Definition extract (content : string) : Exc string :=
  if contains "```python" content then fenced "```python" content
  else if contains "```" content then fenced "```" content
  else Ok content.

Definition generate_completion (prompt : string) (condition : Condition)
    (model : string) : Run (Exc string) :=
  (response <~? event (fun t => messages_create w t (request_of prompt condition model)) ;;
   ret match index response 0 with
       | Ok content =>
           match extract content with
           | Ok code => Ok (strip code)
           | Raise e => Raise e
           end
       | Raise e => Raise e
       end)%run.

Definition full_code (prompt completion test entry_point : string) : string :=
  prompt +:+ completion +:+ nl +:+ nl +:+ test +:+ nl +:+ nl
    +:+ "check(" +:+ entry_point +:+ ")".

(** The [try] statement of [check_correctness]: what its body or its handlers
    return. *)
Definition checked (run : Exc CompletedProcess) : bool * option string :=
  match run with
  | Ok result =>
      if (returncode result =? 0)%Z then (true, None)
      else (false, Some (slice_chars_to 500 (stderr result)))
  | Raise e =>
      match exn_class e with
      | TimeoutExpired => (false, Some "Timeout")
      | _ => (false, Some (slice_chars_to 500 (exn_str e)))
      end
  end.

(** The temporary file is written before the [try]; the [finally] clause
    removes it, and an exception raised there replaces the result. *)
Definition check_correctness (prompt completion test entry_point : string)
    (timeout : Q) : Run (Exc (bool * option string)) :=
  (temp_path <~? event (fun t => write_temp w t
                                  (full_code prompt completion test entry_point)) ;;
   run <~ event (fun t => subprocess_run w t ["python3"; temp_path] timeout) ;;
   removed <~? event (fun t => unlink w t temp_path) ;;
   ret (Ok (checked run)))%run.

(** The trials before shuffling: the comprehension over the keys of
    [problems], the conditions and [range(n)]. *)
Definition Trial : Type := string * Condition.

Definition all_trials (problems : dict Problem) (conditions : list Condition)
    (n : Z) : list Trial :=
  problem_id ← keys problems;
  condition ← conditions;
  _ ← seqZ 0 n;
  [(problem_id, condition)].

(** The body of the [try] of one trial. *)
Definition attempt (problem : Problem) (condition : Condition) (model : string)
  : Run (Exc (string * bool * option string)) :=
  (completion <~? generate_completion (prompt problem) condition model ;;
   verdict <~? check_correctness (prompt problem) completion (test problem)
                                 (entry_point problem) 5 ;;
   ret (Ok (completion, verdict.1, verdict.2)))%run.

(** What the [except Exception] clause binds instead. *)
Definition generation_error (e : Exn) : string * bool * option string :=
  ("", false, Some ("Generation error: " +:+ exn_str e)).

Definition blind_id_of (instant : Instant) (rnd : string) : string :=
  slice_to 12 (sha256_hexdigest w (isoformat instant +:+ rnd)).

(** One iteration of the loop: the result and its blind row.  The lookup
    [problems[problem_id]] stands outside the [try]. *)
Definition run_trial (problems : dict Problem) (model : string) (trial : Trial)
  : Run (Exc (TrialResult * Blind.Entry)) :=
  let '(problem_id, condition) := trial in
  match dict_get problems problem_id with
  | None => ret (Raise {| exn_class := KeyError; exn_str := "'" +:+ problem_id +:+ "'" |})
  | Some problem =>
      (tried <~ attempt problem condition model ;;
       let '(completion, passed, error) :=
         match tried with Ok x => x | Raise e => generation_error e end in
       hashed_at <~ event (now w) ;;
       rnd <~ event (random w) ;;
       let blind_id := blind_id_of hashed_at rnd in
       stamped_at <~ event (now w) ;;
       ret (Ok ({| problem_id := problem_id;
                   condition := name condition;
                   completion := completion;
                   passed := passed;
                   error := error;
                   timestamp := isoformat stamped_at;
                   blind_id := blind_id |},
                {| Blind.blind_id := blind_id;
                   Blind.problem_id := problem_id;
                   Blind.prompt := prompt problem;
                   Blind.completion := completion;
                   Blind.passed := passed |})))%run
  end.

(** The loop over the trials, appending to [results] and [blind_outputs]. *)
Fixpoint run_trials (problems : dict Problem) (model : string)
    (trials : list Trial) (results : list TrialResult)
    (blind_outputs : list Blind.Entry)
  : Run (Exc (list TrialResult * list Blind.Entry)) :=
  match trials with
  | [] => ret (Ok (results, blind_outputs))
  | trial :: rest =>
      (row <~? run_trial problems model trial ;;
       run_trials problems model rest (results ++ [row.1]) (blind_outputs ++ [row.2]))%run
  end.

(** [{r["blind_id"]: r["condition"] for r in results}] *)
Definition key_mapping (results : list TrialResult) : gmap string string :=
  foldl (fun key r => <[blind_id r := condition r]> key) ∅ results.

(** A line of the two pass-rate tables.  [rate] is the exact value of
    [passed / total]; the float the program holds is its rounding. *)
Record RateLine := {
  label : string;
  line_passed : nat;
  line_total : nat;
  rate : Q
}.

Definition count_passed (rs : list TrialResult) : nat :=
  length (filter (fun r => passed r = true) rs).

Definition rate_line (label : string) (rs : list TrialResult) : RateLine :=
  let passed := count_passed rs in
  let total := length rs in
  {| label := label;
     line_passed := passed;
     line_total := total;
     rate := if (0 <? total)%nat then Z.of_nat passed # Pos.of_nat total else 0 |}.

Definition condition_lines (conditions : list Condition)
    (results : list TrialResult) : list RateLine :=
  (fun c => rate_line (name c) (filter (fun r => condition r = name c) results))
    <$> conditions.

Definition problem_lines (problems : dict Problem)
    (results : list TrialResult) : list RateLine :=
  (fun p => rate_line p (filter (fun r => problem_id r = p) results))
    <$> keys problems.

Record Summary := {
  summary_results : list TrialResult;
  total_trials : nat;
  overall_pass_rate : Q
}.

(** The value returned: the last division is not guarded.
    [overall_pass_rate] is the exact value of the quotient; the float the
    program holds is its rounding. *)
Definition summary (results : list TrialResult) : Exc Summary :=
  match length results with
  | O => Raise {| exn_class := ZeroDivisionError; exn_str := "division by zero" |}
  | S _ =>
      Ok {| summary_results := results;
            total_trials := length results;
            overall_pass_rate :=
              Z.of_nat (count_passed results) # Pos.of_nat (length results) |}
  end.

(** What a run leaves behind: the three files (path and JSON value) when it
    got as far as writing them, the two printed tables, and what the call
    returned or raised. *)
Record Outcome := {
  results_file : option (string * list TrialResult);
  blind_eval_file : option (string * list Blind.Entry);
  key_file : option (string * gmap string string);
  by_condition : list RateLine;
  by_problem : list RateLine;
  returned : Exc Summary
}.

(** The JSON value of each file; empty when the file was not written. *)
Definition results_of (o : Outcome) : list TrialResult :=
  default [] (snd <$> results_file o).

Definition blind_of (o : Outcome) : list Blind.Entry :=
  default [] (snd <$> blind_eval_file o).

Definition key_of (o : Outcome) : gmap string string :=
  default ∅ (snd <$> key_file o).

Definition aborted (e : Exn) : Outcome :=
  {| results_file := None; blind_eval_file := None; key_file := None;
     by_condition := []; by_problem := []; returned := Raise e |}.

(** The trials and what follows them in [run_experiment], with the loaded
    problems and the conditions as parameters, in a run where the client of
    the service, the output directory, the benchmark and the three files
    raise nothing.  [Script.run_experiment] below is the call with these. *)
Definition run_experiment_with (problems : dict Problem)
    (conditions : list Condition) (n_trials_per_condition : Z)
    (output_dir model : string) : Run Outcome :=
  (trials <~ shuffle (randbelow w) (all_trials problems conditions n_trials_per_condition) ;;
   ran <~ run_trials problems model trials [] [] ;;
   match ran with
   | Raise e => ret (aborted e)
   | Ok (results, blind_outputs) =>
       saved_at <~ event (now w) ;;
       let timestamp := strftime saved_at in
       shuffled <~ shuffle (randbelow w) blind_outputs ;;
       ret {| results_file :=
                Some (output_dir +:+ "/results_" +:+ timestamp +:+ ".json", results);
              blind_eval_file :=
                Some (output_dir +:+ "/blind_eval_" +:+ timestamp +:+ ".json", shuffled);
              key_file :=
                Some (output_dir +:+ "/key_" +:+ timestamp +:+ ".json",
                      key_mapping results);
              by_condition := condition_lines conditions results;
              by_problem := problem_lines problems results;
              returned := summary results |}
   end)%run.

(** The same on the benchmark of the world and the five conditions. *)
Definition run_experiment (n_trials_per_condition : Z) (output_dir model : string)
  : Run Outcome :=
  run_experiment_with (load_humaneval_problems (dataset w) SELECTED_PROBLEMS)
                      CONDITIONS n_trials_per_condition output_dir model.

End Orchestrator.

(** What the call needs from the machine around the trials: the client of
    the generation service ([anthropic.Anthropic()]), the output directory
    ([Path(output_dir).mkdir(exist_ok=True)]), the benchmark
    ([load_dataset]), and each of the three files to write ([open(path, "w")]
    with the [json.dump] under it).  Each can raise. *)
Record Host := {
  anthropic_client : Exc unit;
  mkdir : string -> Exc unit;
  load_dataset : Exc (list Item);
  open_write : string -> Exc unit
}.

Module Script.

Section Script.
Context (h : Host) (w : World).

(** An exception that leaves the call after some of the files were
    written: the tables are not printed and nothing is returned. *)
Definition interrupted (results_file : option (string * list TrialResult))
    (blind_eval_file : option (string * list Blind.Entry)) (e : Exn) : Outcome :=
  {| results_file := results_file; blind_eval_file := blind_eval_file;
     key_file := None; by_condition := []; by_problem := []; returned := Raise e |}.

(** [run_experiment] as the script calls it. *)
Definition run_experiment (n_trials_per_condition : Z) (output_dir model : string)
  : Run Outcome :=
  match anthropic_client h with
  | Raise e => ret (aborted e)
  | Ok _ =>
  match mkdir h output_dir with
  | Raise e => ret (aborted e)
  | Ok _ =>
  match load_dataset h with
  | Raise e => ret (aborted e)
  | Ok ds =>
      let problems := load_humaneval_problems ds SELECTED_PROBLEMS in
      (trials <~ shuffle (randbelow w) (all_trials problems CONDITIONS n_trials_per_condition) ;;
       ran <~ run_trials w problems model trials [] [] ;;
       match ran with
       | Raise e => ret (aborted e)
       | Ok (results, blind_outputs) =>
           saved_at <~ event (now w) ;;
           let timestamp := strftime saved_at in
           let results_path := output_dir +:+ "/results_" +:+ timestamp +:+ ".json" in
           let blind_path := output_dir +:+ "/blind_eval_" +:+ timestamp +:+ ".json" in
           let key_path := output_dir +:+ "/key_" +:+ timestamp +:+ ".json" in
           match open_write h results_path with
           | Raise e => ret (aborted e)
           | Ok _ =>
           match open_write h blind_path with
           | Raise e => ret (interrupted (Some (results_path, results)) None e)
           | Ok _ =>
               shuffled <~ shuffle (randbelow w) blind_outputs ;;
               match open_write h key_path with
               | Raise e =>
                   ret (interrupted (Some (results_path, results))
                                    (Some (blind_path, shuffled)) e)
               | Ok _ =>
                   ret {| results_file := Some (results_path, results);
                          blind_eval_file := Some (blind_path, shuffled);
                          key_file := Some (key_path, key_mapping results);
                          by_condition := condition_lines CONDITIONS results;
                          by_problem := problem_lines problems results;
                          returned := summary results |}
               end
           end
           end
       end)%run
  end
  end
  end.

End Script.

(** A host on which nothing fails when the call is made with [output_dir]:
    then the call is the run of [run_experiment_with] on the problems
    loaded from the benchmark [ds]. *)
Definition obliging (h : Host) (output_dir : string) (ds : list Item) : Prop :=
  anthropic_client h = Ok tt /\ mkdir h output_dir = Ok tt /\
  load_dataset h = Ok ds /\ forall path, open_write h path = Ok tt.

End Script.

End Conditioning.

(** ** evaluate_quality.py *)

Module Quality.
Import Py.

Record ScoreRecord := {
  edge_cases : Z;
  error_handling : Z;
  idiomaticity : Z;
  documentation : Z;
  ship_it : Z;
  total : Z
}.

(** [sum(parts)] *)
Definition sum (parts : list Z) : Z := foldr Z.add 0%Z parts.

(** [[int(x.strip()) for x in response.split(',')]]; [None] stands for the
    [ValueError] of the first token that is not an integer. *)
Definition parse_parts (response : string) : option (list Z) :=
  mapM (fun x => int (strip x)) (split "," response).

(** [all(1 <= x <= 5 for x in parts)] *)
Definition in_range (parts : list Z) : bool :=
  forallb (fun x => (1 <=? x)%Z && (x <=? 5)%Z) parts.

(** What the terminal shows, as far as the properties below need it: a
    sample put on display, a sample passed over as already scored, the
    scores echoed once recorded with their total, and the other messages of
    the prompt loop. *)
Inductive Console :=
  | Shown (blind_id : string)
  | AlreadyScored (blind_id : string)
  | RecordedLine (parts : list Z) (total : Z)
  | Said (message : string).

(** How the [while True] loop of one sample ends. *)
Inductive Answer :=
  | Quit
  | Skipped
  | Recorded (r : ScoreRecord)
  | EndOfInput.

(** The record built from a response, or the message that rejects it. *)
Definition read_scores (response : string) : ScoreRecord + string :=
  match parse_parts response with
  | None => inr "Invalid format. Use: 3,2,4,3,3"
  | Some parts =>
      match parts with
      | [p0; p1; p2; p3; p4] =>
          if in_range parts
          then inl {| edge_cases := p0; error_handling := p1; idiomaticity := p2;
                      documentation := p3; ship_it := p4; total := sum parts |}
          else inr "Scores must be 1-5"
      | _ => inr "Need exactly 5 scores"
      end
  end.

(** The prompt loop over the lines typed from here on: the answer, the lines
    left, and what was printed.  Running out of lines is [input()] raising
    [EOFError]. *)
Fixpoint ask (inputs : list string) : Answer * list string * list Console :=
  match inputs with
  | [] => (EndOfInput, [], [])
  | line :: rest =>
      let response := lower (strip line) in
      if decide (response = "q") then (Quit, rest, [])
      else if decide (response = "s") then (Skipped, rest, [Said "Skipped"])
      else match read_scores response with
           | inl r =>
               (Recorded r, rest,
                [RecordedLine [edge_cases r; error_handling r; idiomaticity r;
                               documentation r; ship_it r] (total r)])
           | inr message =>
               let '(answer, rest', printed) := ask rest in
               (answer, rest', Said message :: printed)
           end
  end.

(** A finished session: the terminal, the score file when it was written,
    and what the call returned or raised. *)
Record Session := {
  console : list Console;
  written : option (gmap string ScoreRecord);
  result : Exc (gmap string ScoreRecord)
}.

(** The loop over the samples. *)
Fixpoint session (data : list Conditioning.Blind.Entry)
    (scores : gmap string ScoreRecord) (inputs : list string)
    (shown : list Console) : Session :=
  match data with
  | [] => {| console := shown; written := Some scores; result := Ok scores |}
  | item :: data' =>
      let blind_id := Conditioning.Blind.blind_id item in
      match scores !! blind_id with
      | Some _ => session data' scores inputs (shown ++ [AlreadyScored blind_id])
      | None =>
          let '(answer, inputs', printed) := ask inputs in
          let shown' := shown ++ Shown blind_id :: printed in
          match answer with
          | Quit => {| console := shown'; written := Some scores; result := Ok scores |}
          | Skipped => session data' scores inputs' shown'
          | Recorded r => session data' (<[blind_id := r]> scores) inputs' shown'
          | EndOfInput =>
              {| console := shown'; written := None;
                 result := Raise {| exn_class := EOFError;
                                    exn_str := "EOF when reading a line" |} |}
          end
      end
  end.

(** [stored] is the content of the score file when it exists. *)
Definition evaluate_interactively (data : list Conditioning.Blind.Entry)
    (stored : option (gmap string ScoreRecord)) (inputs : list string) : Session :=
  session data (default ∅ stored) inputs [].

End Quality.

(** ** reveal_results.py *)

Module Reveal.
Import Py.
Import Quality.

Local Open Scope R_scope.

(** A number is true when it is not zero. *)
Definition truthy (x : R) : bool := if Req_dec_T x 0 then false else true.

Definition Rsum (xs : list R) : R := foldr Rplus 0 xs.

(** The exact value of [statistics.mean], which the module computes with
    fractions; [None] stands for the [StatisticsError] on no data. *)
Definition mean (data : list Z) : option R :=
  match data with
  | [] => None
  | _ => Some (Rsum (IZR <$> data) / INR (length data))
  end.

(** The exact value of [statistics.stdev]: the square root of the sample
    variance; an error on fewer than two values. *)
Definition stdev (data : list Z) : option R :=
  match mean data with
  | Some m =>
      if (length data <? 2)%nat then None
      else Some (sqrt (Rsum ((fun x => (IZR x - m) ^ 2) <$> data)
                       / INR (length data - 1)))
  | None => None
  end.

(** [statistics.stdev(totals) if len(totals) > 1 else 0] *)
Definition stdev_or_zero (totals : list Z) : option R :=
  if (1 <? length totals)%nat then stdev totals else Some 0.

(** The exact sample variance, under the same conditions. *)
Definition variance (data : list Z) : option R :=
  match mean data with
  | Some m =>
      if (length data <? 2)%nat then None
      else Some (Rsum ((fun x => (IZR x - m) ^ 2) <$> data) / INR (length data - 1))
  | None => None
  end.

(** The floating-point arithmetic of the interpreter.  A float is the real
    number it stands for.  [fl] rounds an exact result: it gives the float
    of a sum, a difference, a product or a quotient of floats and integers,
    and the float [statistics.mean] returns for the exact mean.  [fpow] is
    [**] on floats, and [froot] gives the float [statistics.stdev] returns
    from the exact sample variance.  Nothing is assumed of the three.  The
    reading holds as long as every integer met is a float and nothing
    overflows, which is so for totals up to [2 ^ 52] in absolute value. *)
Record Floats := {
  fl : R -> R;
  fpow : R -> R -> R;
  froot : R -> R
}.

Definition small (scores : dict ScoreRecord) : Prop :=
  Forall (fun item => (Z.abs (total item.2) <= 2 ^ 52)%Z) scores.

(** The grouping of the scores by the condition the key gives them; a
    missing or empty condition drops the score.  (The grouping by problem
    that [analyze] also builds is never read and is left out.) *)
Definition group_by_condition (scores : dict ScoreRecord)
    (key : gmap string string) : dict (list ScoreRecord) :=
  foldl (fun by_condition item =>
           match key !! item.1 with
           | Some condition =>
               if decide (condition = "") then by_condition
               else dict_append by_condition condition item.2
           | None => by_condition
           end)
        [] scores.

(** A line of the comparison with the control group. *)
Record Comparison := {
  condition : string;
  cmp_mean : R;
  cmp_std : R;
  diff : R;
  pct_diff : R;
  pooled_std : R;
  effect : R
}.

Definition treatments : list string :=
  ["common_english"; "greek_arete"; "japanese_shokunin"; "combined"].

(** The conditions of [names] that have scores, with their totals. *)
Definition present (by_condition : dict (list ScoreRecord)) (names : list string)
  : list (string * list Z) :=
  omap (fun c : string =>
          match dict_get by_condition c with
          | Some group => Some (c, total <$> group)
          | None => None
          end)
       names.

(** The statistical comparison of [analyze]: nothing to compare without a
    control group, else the baseline and one line per treatment that has
    scores.  [None] stands for a [StatisticsError]. *)
Inductive Report :=
  | NoControl
  | Compared (control_mean control_std : R) (rows : list Comparison).

Section Arithmetic.
Context (F : Floats).

(** [statistics.mean(data)] and [statistics.stdev(data)] as floats. *)
Definition fmean (data : list Z) : option R := fl F <$> mean data.

Definition fstdev (data : list Z) : option R := froot F <$> variance data.

(** [statistics.stdev(totals) if len(totals) > 1 else 0] *)
Definition fstdev_or_zero (totals : list Z) : option R :=
  if (1 <? length totals)%nat then fstdev totals else Some 0.

(** [((control_std**2 + std**2) / 2) ** 0.5 if control_std and std else 1] *)
Definition pooled (control_std std : R) : R :=
  if truthy control_std && truthy std
  then fpow F (fl F (fl F (fpow F control_std 2 + fpow F std 2) / 2)) (1 / 2)
  else 1.

Definition compare (control_mean control_std : R) (condition : string)
    (totals : list Z) : option Comparison :=
  mean ← fmean totals;
  std ← fstdev_or_zero totals;
  let diff := fl F (mean - control_mean) in
  let pct_diff :=
    if truthy control_mean then fl F (fl F (diff / control_mean) * 100) else 0 in
  let pooled_std := pooled control_std std in
  let effect := if truthy pooled_std then fl F (diff / pooled_std) else 0 in
  Some {| condition := condition; cmp_mean := mean; cmp_std := std; diff := diff;
          pct_diff := pct_diff; pooled_std := pooled_std; effect := effect |}.

Definition analyze (scores : dict ScoreRecord) (key : gmap string string)
  : option Report :=
  let by_condition := group_by_condition scores key in
  match dict_get by_condition "control" with
  | None => Some NoControl
  | Some control =>
      let control_totals := total <$> control in
      control_mean ← fmean control_totals;
      control_std ← fstdev_or_zero control_totals;
      rows ← mapM (fun g => compare control_mean control_std g.1 g.2)
                  (present by_condition treatments);
      Some (Compared control_mean control_std rows)
  end.

End Arithmetic.

End Reveal.

(** ** Vocabulary for the properties of the orchestrator *)

Module Batch.
Import Py Conditioning.

Section Batch.
Context (w : World) (problems : dict Problem) (model : string).

(** [each_trial P t trials rows]: the loop started at interaction [t] runs
    [trials] in order, [rows] holds one row per trial, and [P] holds of each
    trial and its row at the interaction where that trial starts. *)
Inductive each_trial (P : nat -> Trial -> TrialResult * Blind.Entry -> Prop)
  : nat -> list Trial -> list (TrialResult * Blind.Entry) -> Prop :=
  | each_nil t : each_trial P t [] []
  | each_cons t trial row trials rows :
      P t trial row ->
      each_trial P (run_trial w problems model trial t).2 trials rows ->
      each_trial P t (trial :: trials) (row :: rows).

(** The row is the one the loop body computes. *)
Definition computed (t : nat) (trial : Trial) (row : TrialResult * Blind.Entry) : Prop :=
  (run_trial w problems model trial t).1 = Ok row.

(** Failure isolation: a trial whose generation or check raises is recorded
    as a failure carrying the text of the exception. *)
Definition isolated (t : nat) (trial : Trial) (row : TrialResult * Blind.Entry) : Prop :=
  problem_id row.1 = trial.1 /\ condition row.1 = name trial.2 /\
  forall problem e,
    dict_get problems trial.1 = Some problem ->
    (attempt w problem trial.2 model t).1 = Raise e ->
    completion row.1 = "" /\ passed row.1 = false /\
    error row.1 = Some ("Generation error: " +:+ exn_str e).

(** The blind row is the result without its condition, error and time stamp,
    with the prompt of the problem added. *)
Definition redacted (t : nat) (trial : Trial) (row : TrialResult * Blind.Entry) : Prop :=
  Blind.blind_id row.2 = blind_id row.1 /\
  Blind.problem_id row.2 = problem_id row.1 /\
  Blind.completion row.2 = completion row.1 /\
  Blind.passed row.2 = passed row.1 /\
  condition row.1 = name trial.2 /\
  exists problem, dict_get problems (problem_id row.1) = Some problem /\
                  Blind.prompt row.2 = prompt problem.

(** The blind id is the first twelve characters of the digest of the clock
    reading followed by the random draw. *)
Definition hashed (t : nat) (trial : Trial) (row : TrialResult * Blind.Entry) : Prop :=
  exists t1 t2,
    blind_id row.1 = slice_to 12 (sha256_hexdigest w (isoformat (now w t1) +:+ random w t2)) /\
    String.length (blind_id row.1) <= 12.

End Batch.
End Batch.

(** ** Vocabulary for the blind file and its key *)

Module Inverse.
Import Py Conditioning.

(** The fields a blind row and a full result have in common, with the
    condition. *)
Record Labelled := {
  blind_id : string;
  problem_id : string;
  completion : string;
  passed : bool;
  condition : string
}.

(** A blind row with a condition attached again. *)
Definition reattach (b : Blind.Entry) (condition : string) : Labelled :=
  {| blind_id := Blind.blind_id b; problem_id := Blind.problem_id b;
     completion := Blind.completion b; passed := Blind.passed b;
     condition := condition |}.

(** A full result restricted to those fields. *)
Definition restrict (r : TrialResult) : Labelled :=
  {| blind_id := Conditioning.blind_id r; problem_id := Conditioning.problem_id r;
     completion := Conditioning.completion r; passed := Conditioning.passed r;
     condition := Conditioning.condition r |}.

(** Every blind row has its id in the key, and with the condition found
    there it is a result of the results file. *)
Definition rejoins (results : list TrialResult) (blind : list Blind.Entry)
    (key : gmap string string) : Prop :=
  forall b, b ∈ blind ->
    exists c r, key !! Blind.blind_id b = Some c /\ r ∈ results /\
                reattach b c = restrict r.

(** The blind file and the key undo the redaction of the results file. *)
Definition exact_inverse (results : list TrialResult) (blind : list Blind.Entry)
    (key : gmap string string) : Prop :=
  Blind.blind_id <$> blind ≡ₚ Conditioning.blind_id <$> results /\
  rejoins results blind key.

(** The same, said of the three files of an outcome. *)
Definition inverse_files (o : Outcome) : Prop :=
  is_Some (results_file o) /\ is_Some (blind_eval_file o) /\ is_Some (key_file o) /\
  exact_inverse (results_of o) (blind_of o) (key_of o).

End Inverse.

(** ** The design as the specification words it *)

Module Worded.
Import Py Conditioning.

(** The full cross-product of problems, conditions and repetition indices
    in [[0, n)]. *)
Definition cross_product (problems : dict Problem) (conditions : list Condition)
    (n : Z) : list (string * Condition * Z) :=
  problem_id ← keys problems;
  condition ← conditions;
  i ← seqZ 0 n;
  [(problem_id, condition, i)].

(** The number of times [b] occurs in [l]. *)
Definition occurrences {B} `{EqDecision B} (b : B) (l : list B) : nat :=
  length (filter (fun x => x = b) l).

(** The request text with the instruction line of the specification. *)
Definition request_text (prompt : string) (condition : Condition) : string :=
  prefix condition +:+ "Complete the following function:" +:+ nl +:+ nl
    +:+ prompt +:+ suffix condition.

(** A checker that returns whatever happens. *)
Definition never_raises (w : World) : Prop :=
  forall prompt completion test entry_point timeout t,
    exists verdict,
      (check_correctness w prompt completion test entry_point timeout t).1 = Ok verdict.

(** A line the prompt loop turns down: neither of the two control inputs,
    and an unparsable token, a wrong number of values or a value outside
    [[1, 5]]. *)
Definition rejected (line : string) : Prop :=
  let response := lower (strip line) in
  response <> "q" /\ response <> "s" /\
  forall parts, Quality.parse_parts response = Some parts ->
                length parts <> 5 \/ Quality.in_range parts = false.

(** The mean of a group of totals and their sample variance, over the real
    numbers. *)
Definition arithmetic_mean (xs : list Z) : R :=
  (foldr Rplus 0 (IZR <$> xs) / INR (length xs))%R.

Definition sample_variance (xs : list Z) : R :=
  (foldr Rplus 0 ((fun x => (IZR x - arithmetic_mean xs) ^ 2) <$> xs)
   / INR (length xs - 1))%R.

(** A score record as the rubric wants it. *)
Definition well_scored (r : Quality.ScoreRecord) : Prop :=
  Forall (fun x => (1 <= x <= 5)%Z)
         [Quality.edge_cases r; Quality.error_handling r; Quality.idiomaticity r;
          Quality.documentation r; Quality.ship_it r] /\
  Quality.total r =
    (Quality.edge_cases r + Quality.error_handling r + Quality.idiomaticity r
     + Quality.documentation r + Quality.ship_it r)%Z.

End Worded.

(** ** Sample worlds and data *)

Module Samples.
Import Py Conditioning.

Definition truncate_number : Problem :=
  {| prompt := "def truncate_number(number: float) -> float:" +:+ nl;
     test := "def check(candidate):" +:+ nl +:+ "    assert candidate(3.5) == 0.5";
     entry_point := "truncate_number";
     canonical_solution := "    return number % 1.0" |}.

Definition string_xor : Problem :=
  {| prompt := "def string_xor(a: str, b: str) -> str:" +:+ nl;
     test := "def check(candidate):" +:+ nl +:+ "    assert candidate('1', '1') == '0'";
     entry_point := "string_xor";
     canonical_solution := "    return a" |}.

(** U+00A0, the no-break space, in UTF-8. *)
Definition nbsp : string :=
  String (Ascii.ascii_of_nat 194) (String (Ascii.ascii_of_nat 160) "").

(** The first two entries of [CONDITIONS]. *)
Definition control : Condition := {| name := "control"; prefix := ""; suffix := "" |}.

Definition common_english : Condition :=
  {| name := "common_english";
     prefix := "Write high-quality, production-ready code." +:+ nl +:+ nl;
     suffix := "" |}.

Definition benchmark : list Item :=
  [ {| task_id := "HumanEval/1"; item_problem := string_xor |};
    {| task_id := "HumanEval/2"; item_problem := truncate_number |};
    {| task_id := "HumanEval/11"; item_problem := string_xor |} ].

Definition two_problems : dict Problem :=
  [("HumanEval/2", truncate_number); ("HumanEval/11", string_xor)].

(** The decimal text of a count, for the sample clock. *)
Definition digit_text (d : nat) : string :=
  String (Ascii.ascii_of_nat (48 + d)) "".

Definition count_text (k : nat) : string :=
  digit_text (k / 100 mod 10) +:+ digit_text (k / 10 mod 10) +:+ digit_text (k mod 10).

(** A world where everything works: the service answers with a fenced block,
    the program exits with status zero, the clock advances and the digest
    keeps the start of its input. *)
Definition calm : World :=
  {| dataset := benchmark;
     messages_create := fun _ _ =>
       Ok ["Here it is:" +:+ nl +:+ "```python" +:+ nl +:+ "    return number % 1.0"
             +:+ nl +:+ "```"];
     write_temp := fun _ _ => Ok "/tmp/tmpq1w2e3.py";
     subprocess_run := fun _ _ _ => Ok {| returncode := 0; stderr := "" |};
     unlink := fun _ _ => Ok ();
     now := fun t => {| isoformat := count_text t +:+ "T00:00:00";
                        strftime := "20260101_000000" |};
     random := fun _ => "0.8444218515250481";
     randbelow := fun t => 7 * t + 3;
     sha256_hexdigest := fun s => s |}.

(** The same world with a clock that stands still: every blind id is the
    digest of the same text, whatever the digest.  The service echoes the
    request, so the completions differ from one condition to the next. *)
Definition frozen : World :=
  {| dataset := benchmark;
     messages_create := fun _ request =>
       Ok (snd <$> messages request);
     write_temp := write_temp calm;
     subprocess_run := subprocess_run calm;
     unlink := unlink calm;
     now := fun _ => {| isoformat := "2026-01-01T00:00:00.000000";
                        strftime := "20260101_000000" |};
     random := random calm;
     randbelow := randbelow calm;
     sha256_hexdigest := sha256_hexdigest calm |}.

(** A world with no room for the temporary file. *)
Definition full_disk : World :=
  {| dataset := benchmark;
     messages_create := messages_create calm;
     write_temp := fun _ _ =>
       Raise {| exn_class := OtherException "OSError";
                exn_str := "[Errno 28] No space left on device" |};
     subprocess_run := subprocess_run calm;
     unlink := unlink calm;
     now := now calm;
     random := random calm;
     randbelow := randbelow calm;
     sha256_hexdigest := sha256_hexdigest calm |}.

(** A world where the service refuses every request. *)
Definition offline : World :=
  {| dataset := benchmark;
     messages_create := fun _ _ =>
       Raise {| exn_class := OtherException "APIConnectionError";
                exn_str := "Connection error." |};
     write_temp := write_temp calm;
     subprocess_run := subprocess_run calm;
     unlink := unlink calm;
     now := now calm;
     random := random calm;
     randbelow := randbelow calm;
     sha256_hexdigest := sha256_hexdigest calm |}.

(** A blind file of two samples and a score file that holds the first. *)
Definition two_samples : list Blind.Entry :=
  [ {| Blind.blind_id := "abc123"; Blind.problem_id := "HumanEval/2";
       Blind.prompt := prompt truncate_number;
       Blind.completion := "    return number % 1.0"; Blind.passed := true |};
    {| Blind.blind_id := "def456"; Blind.problem_id := "HumanEval/11";
       Blind.prompt := prompt string_xor;
       Blind.completion := "    return a"; Blind.passed := false |} ].

Definition abc123_score : Quality.ScoreRecord :=
  {| Quality.edge_cases := 3; Quality.error_handling := 2; Quality.idiomaticity := 4;
     Quality.documentation := 3; Quality.ship_it := 3; Quality.total := 15 |}.

Definition one_scored : gmap string Quality.ScoreRecord :=
  {[ "abc123" := abc123_score ]}.

(** A host on which nothing fails, with the sample benchmark, and one where
    the parent of the output directory is missing. *)
Definition ready : Host :=
  {| anthropic_client := Ok tt;
     mkdir := fun _ => Ok tt;
     load_dataset := Ok benchmark;
     open_write := fun _ => Ok tt |}.

Definition no_parent : Host :=
  {| anthropic_client := Ok tt;
     mkdir := fun _ =>
       Raise {| exn_class := OtherException "FileNotFoundError";
                exn_str := "[Errno 2] No such file or directory: 'missing/results'" |};
     load_dataset := Ok benchmark;
     open_write := fun _ => Ok tt |}.

(** Arithmetic without rounding. *)
Definition exact : Reveal.Floats :=
  {| Reveal.fl := fun x => x; Reveal.fpow := Rpower; Reveal.froot := sqrt |}.

(** Five scores, three of the control group and two of a treatment, and
    their key. *)
Definition score_of (p0 p1 p2 p3 p4 : Z) : Quality.ScoreRecord :=
  {| Quality.edge_cases := p0; Quality.error_handling := p1; Quality.idiomaticity := p2;
     Quality.documentation := p3; Quality.ship_it := p4;
     Quality.total := p0 + p1 + p2 + p3 + p4 |}.

Definition five_scores : dict Quality.ScoreRecord :=
  [ ("c1", score_of 2 2 2 2 2); ("g1", score_of 3 3 3 3 3); ("c2", score_of 2 2 3 2 3);
    ("g2", score_of 3 3 4 3 3); ("c3", score_of 3 3 3 2 3) ].

Definition five_key : gmap string string :=
  {[ "c1" := "control"; "c2" := "control"; "c3" := "control";
     "g1" := "greek_arete"; "g2" := "greek_arete" ]}.

End Samples.

(** ** More of the runtime and of the three programs *)

Module Text.
Import Py.

(** A list of characters as [chars] gives them: each a byte followed by
    continuation bytes, none but the first starting with one. *)
Fixpoint continuation_only (s : string) : bool :=
  match s with
  | String c s' => is_continuation c && continuation_only s'
  | EmptyString => true
  end.

Definition one_char (ch : string) : bool :=
  match ch with
  | String _ r => continuation_only r
  | EmptyString => false
  end.

Definition characters (l : list string) : Prop :=
  Forall (λ ch, one_char ch = true) l ∧
  Forall (λ ch, starts_with_continuation ch = false) (tail l).

(** [sep.join(pieces)] *)
Fixpoint join (sep : string) (pieces : list string) : string :=
  match pieces with
  | [] => ""
  | [piece] => piece
  | piece :: rest => piece +:+ sep +:+ join sep rest
  end.

(** [s.replace(old, new)] for a non-empty [old]: the pieces between the
    occurrences of [old], read from the left and without overlap, joined by
    [new]. *)
Definition replace (old new s : string) : string := join new (split old s).

(** No character of [s] is [c]. *)
Fixpoint free_of (c : ascii) (s : string) : bool :=
  match s with
  | String c' s' => negb (Ascii.eqb c' c) && free_of c s'
  | EmptyString => true
  end.

(** The text of a score in [[0, 9]], and a line of five scores as typed. *)
Definition digit_text (z : Z) : string :=
  String (Ascii.ascii_of_nat (48 + Z.to_nat z)) "".

Definition score_line (p0 p1 p2 p3 p4 : Z) : string :=
  join "," (digit_text <$> [p0; p1; p2; p3; p4]).

End Text.

(** The entry point of evaluate_quality.py. *)
Module QualityMain.
Import Py Quality.

(** [blind_file.replace("blind_eval_", "scores_")] *)
Definition output_file (blind_file : string) : string :=
  Text.replace "blind_eval_" "scores_" blind_file.











End QualityMain.

(** The other tables of [analyze] in reveal_results.py. *)
Module RevealTables.
Import Py Quality.

Local Open Scope R_scope.

Definition condition_order : list string :=
  ["control"; "common_english"; "greek_arete"; "japanese_shokunin"; "combined"].

(** The six columns of the first table. *)
Definition dimensions : list (ScoreRecord -> Z) :=
  [edge_cases; error_handling; idiomaticity; documentation; ship_it; total].

(** The conditions of [names] that have scores, with their group. *)
Definition present_groups (by_condition : dict (list ScoreRecord))
    (names : list string) : list (string * list ScoreRecord) :=
  omap (fun c : string =>
          match dict_get by_condition c with
          | Some group => Some (c, group)
          | None => None
          end)
       names.

(** A line of the first table: the mean of each column and the number of
    scores. *)
Record SummaryRow := {
  row_condition : string;
  row_means : list R;
  row_n : nat
}.

(** Scores whose six fields are small enough for the arithmetic of
    [Reveal.Floats]. *)
Definition small_records (scores : dict ScoreRecord) : Prop :=
  Forall (fun item : string * ScoreRecord =>
            Forall (fun dim : ScoreRecord -> Z => (Z.abs (dim item.2) <= 2 ^ 52)%Z)
                   dimensions)
         scores.

Section Arithmetic.
Context (F : Reveal.Floats).

(** [statistics.mean(values) if values else 0] *)
Definition mean_or_zero (values : list Z) : option R :=
  match values with
  | [] => Some 0
  | _ => Reveal.fmean F values
  end.

Definition summary_row (g : string * list ScoreRecord) : option SummaryRow :=
  means ← mapM (fun dim : ScoreRecord -> Z => mean_or_zero (dim <$> g.2)) dimensions;
  Some {| row_condition := g.1; row_means := means; row_n := length g.2 |}.

Definition summary_table (by_condition : dict (list ScoreRecord))
  : option (list SummaryRow) :=
  mapM summary_row (present_groups by_condition condition_order).

End Arithmetic.

(** The pass rates by condition, from the results alone. *)
Definition pass_rate_table (results : list Conditioning.TrialResult)
  : list Conditioning.RateLine :=
  (fun c => Conditioning.rate_line c
              (filter (fun r => Conditioning.condition r = c) results))
    <$> condition_order.



End RevealTables.

(** Vocabulary and samples for the properties of the rest of the code. *)
Module Rows.
Import Py Conditioning.

(** The blind row of a result: the condition, the error and the time stamp
    left out, the prompt of the problem added. *)
Definition redact (problems : dict Problem) (r : TrialResult) : Blind.Entry :=
  {| Blind.blind_id := blind_id r;
     Blind.problem_id := problem_id r;
     Blind.prompt := default "" (prompt <$> dict_get problems (problem_id r));
     Blind.completion := completion r;
     Blind.passed := passed r |}.

(** The calm world with a service that always sends [blocks]. *)
Definition replying (blocks : list string) : World :=
  {| dataset := dataset Samples.calm;
     messages_create := fun _ _ => Ok blocks;
     write_temp := write_temp Samples.calm;
     subprocess_run := subprocess_run Samples.calm;
     unlink := unlink Samples.calm;
     now := now Samples.calm;
     random := random Samples.calm;
     randbelow := randbelow Samples.calm;
     sha256_hexdigest := sha256_hexdigest Samples.calm |}.

End Rows.

(** * Properties *)

Import Py Conditioning.

(** ** The runtime fragment *)

Lemma swap_Permutation {A} (x : list A) i j : swap x i j ≡ₚ x.
Proof.
  unfold swap. destruct (x !! i) as [xi|] eqn:Hi; [|done].
  destruct (x !! j) as [xj|] eqn:Hj; [|done].
  by apply Permutation_insert_swap.
Qed.

Lemma shuffle_from_Permutation {A} draw i (x : list A) t :
  (shuffle_from draw i x t).1 ≡ₚ x.
Proof.
  revert x t. induction i as [|i IH]; intros x t; simpl; [done|].
  unfold bind, event. rewrite IH. apply swap_Permutation.
Qed.

Lemma shuffle_Permutation {A} draw (x : list A) t : (shuffle draw x t).1 ≡ₚ x.
Proof. apply shuffle_from_Permutation. Qed.

Lemma dict_get_is_Some {V} (d : dict V) k : k ∈ keys d → is_Some (dict_get d k).
Proof.
  unfold keys. induction d as [|[k' v] d IH]; simpl.
  - by intros ?%elem_of_nil.
  - intros [->|?]%elem_of_cons; case_decide; eauto; congruence.
Qed.

Lemma length_slice_to n s : String.length (slice_to n s) <= n.
Proof.
  unfold slice_to. revert s. induction n as [|n IH]; intros [|c s]; simpl; try lia.
  specialize (IH s). lia.
Qed.

Section Loop.
Context (w : World) (problems : dict Problem) (model : string).

Lemma run_trial_computed trial t :
  is_Some (dict_get problems trial.1) →
  ∃ row, Batch.computed w problems model t trial row.
Proof.
  destruct trial as [pid c]. intros [problem Hp]. unfold Batch.computed, run_trial.
  simpl in Hp. rewrite Hp. unfold bind, event, ret.
  destruct (attempt w problem c model t) as [[[[cm ps] er]|e] t']; simpl; eauto.
Qed.

Lemma run_trials_rows trials : ∀ results blind t,
  Forall (λ trial : Trial, is_Some (dict_get problems trial.1)) trials →
  ∃ rows,
    (run_trials w problems model trials results blind t).1
      = Ok (results ++ rows.*1, blind ++ rows.*2) ∧
    Batch.each_trial w problems model (Batch.computed w problems model) t trials rows.
Proof.
  induction trials as [|trial trials IH]; intros results blind t Hk.
  - exists []. simpl. rewrite !app_nil_r. split; [done|constructor].
  - apply Forall_cons in Hk as [Hk Hks].
    destruct (run_trial_computed trial t Hk) as [row Hrow].
    simpl. unfold bindE, bind. unfold Batch.computed in Hrow.
    destruct (run_trial w problems model trial t) as [r t'] eqn:Hrt.
    simpl in Hrow. subst r.
    destruct (IH (results ++ [row.1]) (blind ++ [row.2]) t' Hks) as (rows & Hrun & Hrows).
    exists (row :: rows). split.
    + rewrite Hrun. simpl. by rewrite <-!app_assoc.
    + constructor; [by unfold Batch.computed; rewrite Hrt|]. by rewrite Hrt.
Qed.

Lemma each_trial_impl (P Q : nat → Trial → TrialResult * Blind.Entry → Prop) t trials rows :
  (∀ t trial row, P t trial row → Q t trial row) →
  Batch.each_trial w problems model P t trials rows →
  Batch.each_trial w problems model Q t trials rows.
Proof. intros HPQ. induction 1; constructor; auto. Qed.

Lemma computed_inv t trial row :
  Batch.computed w problems model t trial row →
  ∃ problem,
    dict_get problems trial.1 = Some problem ∧
    let tried := attempt w problem trial.2 model t in
    let outcome := match tried.1 with Ok x => x | Raise e => generation_error e end in
    let id := blind_id_of w (now w tried.2) (random w (S tried.2)) in
    row.1 = {| problem_id := trial.1; condition := name trial.2;
               completion := outcome.1.1; passed := outcome.1.2; error := outcome.2;
               timestamp := isoformat (now w (S (S tried.2))); blind_id := id |} ∧
    row.2 = {| Blind.blind_id := id; Blind.problem_id := trial.1;
               Blind.prompt := prompt problem;
               Blind.completion := outcome.1.1; Blind.passed := outcome.1.2 |}.
Proof.
  destruct trial as [pid c]. unfold Batch.computed, run_trial. simpl.
  destruct (dict_get problems pid) as [problem|] eqn:Hp; [|done].
  unfold bind, event, ret.
  destruct (attempt w problem c model t) as [tried t'] eqn:Ha. simpl.
  intros Hrow. exists problem. split; [done|].
  destruct tried as [[[cm ps] er]|e]; simpl in *.
  all: injection Hrow as <-; by rewrite Ha.
Qed.

End Loop.

Lemma all_trials_elem problems conditions n (trial : Trial) :
  trial ∈ all_trials problems conditions n ↔
  trial.1 ∈ keys problems ∧ trial.2 ∈ conditions ∧ (0 < n)%Z.
Proof.
  unfold all_trials. rewrite list_elem_of_bind. split.
  - intros (pid & Hin & Hpid). apply list_elem_of_bind in Hin as (c & Hin & Hc).
    apply list_elem_of_bind in Hin as (i & Hin & Hi).
    apply list_elem_of_singleton in Hin as ->. apply elem_of_seqZ in Hi. simpl.
    repeat split; auto; lia.
  - intros (Hpid & Hc & Hn). destruct trial as [pid c]. simpl in *. exists pid. split; [|done].
    apply list_elem_of_bind. exists c. split; [|done].
    apply list_elem_of_bind. exists 0%Z. split; [by apply list_elem_of_singleton|].
    apply elem_of_seqZ. lia.
Qed.

Section Run.
Context (w : World) (problems : dict Problem) (conditions : list Condition)
        (n : Z) (output_dir model : string) (t : nat).

Lemma run_experiment_with_rows :
  let order := shuffle (randbelow w) (all_trials problems conditions n) t in
  ∃ rows t',
    Batch.each_trial w problems model (Batch.computed w problems model) order.2 order.1 rows ∧
    (run_experiment_with w problems conditions n output_dir model t).1 =
      {| results_file :=
           Some (output_dir +:+ "/results_" +:+ strftime (now w t') +:+ ".json", rows.*1);
         blind_eval_file :=
           Some (output_dir +:+ "/blind_eval_" +:+ strftime (now w t') +:+ ".json",
                 (shuffle (randbelow w) rows.*2 (S t')).1);
         key_file :=
           Some (output_dir +:+ "/key_" +:+ strftime (now w t') +:+ ".json",
                 key_mapping rows.*1);
         by_condition := condition_lines conditions rows.*1;
         by_problem := problem_lines problems rows.*1;
         returned := summary rows.*1 |}.
Proof.
  intros order. unfold run_experiment_with, bind. fold order.
  destruct order as [trials t0] eqn:Horder. simpl.
  assert (Hperm : trials ≡ₚ all_trials problems conditions n).
  { pose proof (shuffle_Permutation (randbelow w) (all_trials problems conditions n) t) as H.
    fold order in H. by rewrite Horder in H. }
  assert (Hk : Forall (λ trial : Trial, is_Some (dict_get problems trial.1)) trials).
  { apply Forall_forall. intros trial Hin. rewrite Hperm in Hin.
    apply all_trials_elem in Hin as (? & _). by apply dict_get_is_Some. }
  destruct (run_trials_rows w problems model trials [] [] t0 Hk) as (rows & Hrun & Hrows).
  destruct (run_trials w problems model trials [] [] t0) as [ran t'] eqn:Hran.
  simpl in Hrun. subst ran. simpl.
  exists rows, t'. split; [done|].
  unfold event, ret. simpl.
  by destruct (shuffle (randbelow w) rows.*2 (S t')).
Qed.

End Run.

(** ** The completion generator *)

(** C6, as worded, fails: for the control condition and an empty prompt the
    text sent is "Complete the following Python function:" and two newlines,
    not "Complete the following function:" and two newlines. *)
Lemma request_text_not_as_worded :
  messages (request_of "" Samples.control "claude-sonnet-4-20250514")
  ≠ [("user", Worded.request_text "" Samples.control)].
Proof. vm_compute. discriminate. Qed.

(** C6, amended: [generate_completion] makes one interaction, the
    submission to the service of the request whose single message is the
    prefix of the condition, then the line "Complete the following Python
    function:" and two newlines, then the prompt, then the suffix; what it
    returns is read off the reply to that request.  So a service that
    sends back the text it receives gets that text back as the completion,
    after the extraction of a fenced block and stripping. *)
Theorem generate_completion_request w prompt condition model t :
  let text :=
    prefix condition +:+ "Complete the following Python function:" +:+ nl +:+ nl
      +:+ prompt +:+ suffix condition in
  let request :=
    {| model := model; max_tokens := 1024; messages := [("user", text)];
       temperature := 7 # 10 |} in
  let read (reply : Exc (list string)) : Exc string :=
    match reply with
    | Raise e => Raise e
    | Ok response =>
        match index response 0 with
        | Ok content =>
            match extract content with
            | Ok code => Ok (strip code)
            | Raise e => Raise e
            end
        | Raise e => Raise e
        end
    end in
  generate_completion w prompt condition model t
  = (read (messages_create w t request), S t) ∧
  ((∀ t' r, messages_create w t' r = Ok (snd <$> messages r)) →
   (generate_completion w prompt condition model t).1 = read (Ok [text])).
Proof.
  intros text request read.
  assert (generate_completion w prompt condition model t
          = (read (messages_create w t request), S t)) as Hgen.
  { unfold generate_completion, bindE, bind, event, ret.
    fold (full_prompt prompt condition). unfold request_of, full_prompt. fold text request.
    by destruct (messages_create w t request). }
  split; [done|]. intros Hecho. by rewrite Hgen, Hecho.
Qed.

Lemma generate_completion_request_witness :
  (generate_completion Samples.frozen "def f():" Samples.common_english "m" 3).1
  = Ok ("Write high-quality, production-ready code." +:+ nl +:+ nl
          +:+ "Complete the following Python function:" +:+ nl +:+ nl +:+ "def f():").
Proof.
  rewrite (proj2 (generate_completion_request Samples.frozen "def f():"
                    Samples.common_english "m" 3)); [reflexivity|].
  intros t' r. reflexivity.
Defined.

(** ** The correctness checker *)

(** C3, as worded, fails: when the temporary file cannot be written, the
    exception leaves [check_correctness]. *)
Lemma full_disk_raises : ¬ Worded.never_raises Samples.full_disk.
Proof.
  intros H. destruct (H "" "" "" "" 5%Q 0) as [verdict Hv].
  vm_compute in Hv. discriminate.
Qed.

Lemma len_slice_chars_to n s : len (slice_chars_to n s) <= n.
Proof.
  revert n. induction s as [|c s IH]; intros n; cbn [slice_chars_to len]; [lia|].
  destruct (is_continuation c) eqn:Hc.
  - cbn [len]. rewrite Hc. specialize (IH n). lia.
  - destruct n as [|k]; cbn [len]; [lia|]. rewrite Hc. specialize (IH k). lia.
Qed.

(** C3, amended: an exception raised while the temporary file is written
    (before the [try]) or removed (in the [finally]) leaves
    [check_correctness]; otherwise it returns [(True, None)] on exit status
    zero, [False] with the first 500 characters of the standard error on
    another status, [False] with "Timeout" when the timeout expires, and
    [False] with the first 500 characters of the text of any other exception
    raised by the launch. *)
Theorem check_correctness_cases w prompt completion test entry_point timeout t :
  let code := full_code prompt completion test entry_point in
  let outcome := (check_correctness w prompt completion test entry_point timeout t).1 in
  match write_temp w t code with
  | Raise e => outcome = Raise e
  | Ok temp_path =>
      match unlink w (S (S t)) temp_path with
      | Raise e => outcome = Raise e
      | Ok _ =>
          match subprocess_run w (S t) ["python3"; temp_path] timeout with
          | Ok result =>
              if decide (returncode result = 0%Z) then outcome = Ok (true, None)
              else outcome = Ok (false, Some (slice_chars_to 500 (stderr result))) ∧
                   len (slice_chars_to 500 (stderr result)) <= 500
          | Raise e =>
              if decide (exn_class e = TimeoutExpired)
              then outcome = Ok (false, Some "Timeout")
              else outcome = Ok (false, Some (slice_chars_to 500 (exn_str e))) ∧
                   len (slice_chars_to 500 (exn_str e)) <= 500
          end
      end
  end.
Proof.
  intros code outcome. subst outcome. unfold check_correctness, bindE, bind, event, ret.
  fold code. destruct (write_temp w t code) as [temp_path|e]; [|done]. simpl.
  destruct (unlink w (S (S t)) temp_path) as [[]|e]; [|done]. simpl.
  destruct (subprocess_run w (S t) ["python3"; temp_path] timeout) as [result|e]; simpl.
  - case_decide as Hrc.
    + by rewrite Hrc.
    + apply Z.eqb_neq in Hrc. rewrite Hrc. split; [done|apply len_slice_chars_to].
  - case_decide as Hc.
    + by rewrite Hc.
    + split; [|apply len_slice_chars_to]. by destruct (exn_class e).
Qed.

(** ** The trial loop *)

(** C4: a run writes a results file with exactly one result per executed
    trial, in the order of execution; a trial whose generation or check
    raises is recorded with an empty completion, [passed] false and the
    error text "Generation error: " followed by the text of the exception,
    and the loop goes on with the next trial. *)
Theorem failure_isolated w problems conditions n output_dir model t :
  let order := shuffle (randbelow w) (all_trials problems conditions n) t in
  ∃ path rows,
    results_file (run_experiment_with w problems conditions n output_dir model t).1
      = Some (path, rows.*1) ∧
    Batch.each_trial w problems model (Batch.isolated w problems model)
                     order.2 order.1 rows.
Proof.
  intros order.
  destruct (run_experiment_with_rows w problems conditions n output_dir model t)
    as (rows & t' & Hrows & ->). fold order in Hrows. simpl.
  eexists _, rows. split; [done|].
  eapply each_trial_impl; [|exact Hrows].
  clear. intros t trial row (problem & Hp & Hr & _)%computed_inv.
  unfold Batch.isolated. cbv zeta in Hr. rewrite Hr. simpl. do 2 (split; [done|]).
  intros problem' e Hp' Hraise. rewrite Hp in Hp'. injection Hp' as <-.
  rewrite Hraise. done.
Qed.

(** ** The order of the trials *)

Import Worded.

Section Counting.
Context {A B : Type} `{EqDecision B}.

Lemma occurrences_app b (l k : list B) :
  occurrences b (l ++ k) = occurrences b l + occurrences b k.
Proof. unfold occurrences. by rewrite filter_app, length_app. Qed.

Lemma occurrences_Permutation b (l k : list B) :
  l ≡ₚ k → occurrences b l = occurrences b k.
Proof. unfold occurrences. by intros ->. Qed.

Lemma occurrences_absent b (l : list B) : b ∉ l → occurrences b l = 0.
Proof.
  unfold occurrences. induction l as [|x l IH]; [done|].
  intros [Hne Hl]%not_elem_of_cons. rewrite filter_cons_False by congruence. auto.
Qed.

Lemma occurrences_NoDup b (l : list B) : NoDup l → b ∈ l → occurrences b l = 1.
Proof.
  unfold occurrences. induction 1 as [|x l Hx Hl IH]; [by intros ?%elem_of_nil|].
  intros [->|Hin]%elem_of_cons.
  - rewrite filter_cons_True by done. simpl. f_equal. by apply occurrences_absent.
  - rewrite filter_cons_False; [auto|]. intros ->. done.
Qed.

Lemma occurrences_bind b (f : A → list B) (l : list A) (a : A) :
  NoDup l → a ∈ l → (∀ a', a' ≠ a → b ∉ f a') →
  occurrences b (l ≫= f) = occurrences b (f a).
Proof.
  intros Hl Ha Hf. induction Hl as [|x l Hx Hl IH]; [by apply elem_of_nil in Ha|].
  rewrite bind_cons, occurrences_app.
  assert (Hrest : ∀ l', a ∉ l' → occurrences b (l' ≫= f) = 0).
  { intros l' Hl'. apply occurrences_absent. rewrite list_elem_of_bind.
    intros (y & Hb & Hy). apply (Hf y); [|done]. intros ->. done. }
  apply elem_of_cons in Ha as [->|Ha].
  - rewrite (Hrest l Hx). lia.
  - rewrite IH by done. rewrite (occurrences_absent b (f x)); [done|].
    apply Hf. intros ->. done.
Qed.

End Counting.

Lemma length_bind_const {A B} (f : A → list B) (l : list A) m :
  (∀ x, length (f x) = m) → length (l ≫= f) = length l * m.
Proof.
  intros Hf. induction l as [|x l IH]; [done|].
  rewrite bind_cons, length_app, IH, Hf. simpl. lia.
Qed.

Lemma fmap_bind_list {A B C} (g : B → C) (f : A → list B) (l : list A) :
  g <$> (l ≫= f) = l ≫= λ x, g <$> f x.
Proof.
  induction l as [|x l IH]; [done|]. by rewrite !bind_cons, fmap_app, IH.
Qed.

Lemma length_all_trials problems conditions n :
  length (all_trials problems conditions n)
  = length problems * length conditions * Z.to_nat n.
Proof.
  unfold all_trials, keys.
  rewrite (length_bind_const _ _ (length conditions * Z.to_nat n)).
  - rewrite length_fmap. lia.
  - intros pid. rewrite (length_bind_const _ _ (Z.to_nat n)); [done|].
    intros c. rewrite (length_bind_const _ _ 1), length_seqZ; [lia|done].
Qed.

Lemma all_trials_cross_product problems conditions n :
  all_trials problems conditions n = fst <$> Worded.cross_product problems conditions n.
Proof.
  unfold all_trials, Worded.cross_product. rewrite fmap_bind_list.
  apply list_bind_ext; [|done]. intros pid. rewrite fmap_bind_list.
  apply list_bind_ext; [|done]. intros c. rewrite fmap_bind_list.
  by apply list_bind_ext.
Qed.

Lemma occurrences_all_trials problems conditions n pid c :
  NoDup (keys problems) → NoDup conditions →
  pid ∈ keys problems → c ∈ conditions →
  occurrences (pid, c) (all_trials problems conditions n) = Z.to_nat n.
Proof.
  intros Hk Hc Hpid Hin. unfold all_trials.
  rewrite (occurrences_bind _ _ _ pid) by
    (try done; intros pid' Hne; rewrite list_elem_of_bind;
     intros (c' & (i & Hi & _)%list_elem_of_bind & _);
     apply list_elem_of_singleton in Hi; congruence).
  rewrite (occurrences_bind _ _ _ c) by
    (try done; intros c' Hne; rewrite list_elem_of_bind;
     intros (i & Hi & _); apply list_elem_of_singleton in Hi; congruence).
  rewrite <-(length_seqZ 0 n). generalize (seqZ 0 n). intros l.
  induction l as [|i l IH]; [done|].
  rewrite bind_cons, occurrences_app, IH. unfold occurrences at 1.
  by rewrite filter_cons_True.
Qed.

Lemma each_trial_labels w problems model t trials rows :
  Batch.each_trial w problems model (Batch.computed w problems model) t trials rows →
  (λ r, (problem_id r, condition r)) <$> rows.*1
  = (λ trial : Trial, (trial.1, name trial.2)) <$> trials.
Proof.
  induction 1 as [|t trial row trials rows Hrow _ IH]; [done|].
  rewrite !fmap_cons, IH. f_equal.
  apply computed_inv in Hrow as (problem & _ & Hr & _). cbv zeta in Hr. by rewrite Hr.
Qed.

(** C2: when the keys of the problem mapping and the conditions are pairwise
    distinct and [n >= 0], the trials executed are a permutation of the
    cross-product of problems, conditions and repetition indices in
    [[0, n)], every (problem, condition) pair occurs exactly [n] times, there
    are [|problems| * |conditions| * n] trials, and the results file holds
    one result per trial, labelled like it and in the same order. *)
Theorem trials_are_cross_product w problems conditions n output_dir model t :
  NoDup (keys problems) → NoDup conditions → (0 ≤ n)%Z →
  let trials := (shuffle (randbelow w) (all_trials problems conditions n) t).1 in
  trials ≡ₚ fst <$> Worded.cross_product problems conditions n ∧
  (∀ pid c, pid ∈ keys problems → c ∈ conditions →
            Z.of_nat (occurrences (pid, c) trials) = n) ∧
  Z.of_nat (length trials)
    = (Z.of_nat (length problems) * Z.of_nat (length conditions) * n)%Z ∧
  ∃ path results,
    results_file (run_experiment_with w problems conditions n output_dir model t).1
      = Some (path, results) ∧
    (λ r, (problem_id r, condition r)) <$> results
    = (λ trial : Trial, (trial.1, name trial.2)) <$> trials.
Proof.
  intros Hk Hc Hn trials.
  assert (Hperm : trials ≡ₚ all_trials problems conditions n)
    by apply shuffle_Permutation.
  split; [by rewrite <-all_trials_cross_product|].
  split.
  { intros pid c Hpid Hin. rewrite (occurrences_Permutation _ _ _ Hperm).
    rewrite occurrences_all_trials by done. lia. }
  split.
  { rewrite Hperm, length_all_trials. lia. }
  destruct (run_experiment_with_rows w problems conditions n output_dir model t)
    as (rows & t' & Hrows & ->). simpl.
  eexists _, _. split; [done|]. by eapply each_trial_labels.
Qed.

(** The conditions of the experiment are pairwise distinct. *)
Lemma NoDup_CONDITIONS : NoDup CONDITIONS.
Proof. refine (bool_decide_unpack (NoDup CONDITIONS) _). vm_compute. exact I. Qed.

Lemma trials_are_cross_product_witness :
  let trials :=
    (shuffle (randbelow Samples.calm) (all_trials Samples.two_problems CONDITIONS 2) 0).1 in
  Z.of_nat (length trials) = 20%Z.
Proof.
  intros trials.
  refine (proj1 (proj2 (proj2
    (trials_are_cross_product Samples.calm Samples.two_problems CONDITIONS 2
       "./results" "m" 0 _ _ _)))).
  - refine (bool_decide_unpack _ _). vm_compute. exact I.
  - refine (bool_decide_unpack _ _). vm_compute. exact I.
  - lia.
Defined.

(** ** The condition key *)

Lemma key_mapping_snoc rs r :
  key_mapping (rs ++ [r]) = <[blind_id r := condition r]> (key_mapping rs).
Proof. unfold key_mapping. by rewrite foldl_app. Qed.

Lemma key_mapping_lookup rs id :
  key_mapping rs !! id = condition <$> last (filter (λ r, blind_id r = id) rs).
Proof.
  induction rs as [|r rs IH] using rev_ind; [done|].
  rewrite key_mapping_snoc, filter_app, lookup_insert.
  case_decide as Hid.
  - rewrite filter_cons_True, filter_nil by done. by rewrite last_snoc.
  - rewrite filter_cons_False, filter_nil by done. by rewrite app_nil_r.
Qed.

Lemma key_mapping_None rs id :
  key_mapping rs !! id = None ↔ id ∉ blind_id <$> rs.
Proof.
  induction rs as [|r rs IH] using rev_ind.
  - split; [intros _; apply not_elem_of_nil|done].
  - rewrite key_mapping_snoc, lookup_insert_None, IH, fmap_app, not_elem_of_app.
    simpl. rewrite not_elem_of_cons. split.
    + intros [Hn Hne]. repeat split; [done|congruence|apply not_elem_of_nil].
    + intros (Hn & Hne & _). split; [done|congruence].
Qed.

Lemma size_key_mapping_le rs : size (key_mapping rs) ≤ length rs.
Proof.
  induction rs as [|r rs IH] using rev_ind; [done|].
  rewrite key_mapping_snoc, map_size_insert, length_app. simpl.
  destruct (key_mapping rs !! blind_id r); unfold Datatypes.id; lia.
Qed.

Lemma size_key_mapping_NoDup rs :
  size (key_mapping rs) = length rs ↔ NoDup (blind_id <$> rs).
Proof.
  induction rs as [|r rs IH] using rev_ind.
  - split; [constructor|done].
  - rewrite key_mapping_snoc, map_size_insert, length_app, fmap_app. simpl.
    rewrite NoDup_app. pose proof (size_key_mapping_le rs) as Hle.
    destruct (key_mapping rs !! blind_id r) as [c|] eqn:Hr; unfold Datatypes.id.
    + split; [lia|]. intros (_ & Hfresh & _). exfalso.
      assert (blind_id r ∈ blind_id <$> rs) as Hin.
      { destruct (decide (blind_id r ∈ blind_id <$> rs)) as [|Hn]; [done|].
        apply key_mapping_None in Hn. congruence. }
      apply (Hfresh _ Hin). by left.
    + apply key_mapping_None in Hr. split.
      * intros Hs. split; [apply IH; lia|]. split; [|apply NoDup_singleton].
        intros x Hx ->%list_elem_of_singleton. done.
      * intros (Hnd & _ & _). apply IH in Hnd. lia.
Qed.

Lemma NoDup_fmap_eq {A B} (f : A → B) (l : list A) x y :
  NoDup (f <$> l) → x ∈ l → y ∈ l → f x = f y → x = y.
Proof.
  induction l as [|a l IH]; [by intros _ ?%elem_of_nil|].
  rewrite fmap_cons, NoDup_cons. intros [Ha Hl] Hx Hy Hxy.
  apply elem_of_cons in Hx as [->|Hx]; apply elem_of_cons in Hy as [->|Hy]; auto.
  - exfalso. apply Ha. rewrite Hxy. by apply list_elem_of_fmap_2.
  - exfalso. apply Ha. rewrite <-Hxy. by apply list_elem_of_fmap_2.
Qed.

Lemma key_mapping_NoDup_lookup rs r :
  NoDup (blind_id <$> rs) → r ∈ rs → key_mapping rs !! blind_id r = Some (condition r).
Proof.
  intros Hnd Hr. rewrite key_mapping_lookup.
  destruct (last (filter (λ r0, blind_id r0 = blind_id r) rs)) as [r'|] eqn:Hl.
  - apply last_Some_elem_of in Hl. apply list_elem_of_filter in Hl as [Hid Hr'].
    by rewrite (NoDup_fmap_eq blind_id rs r' r).
  - apply last_None in Hl. exfalso.
    assert (r ∈ filter (λ r0, blind_id r0 = blind_id r) rs) as Hin
      by (by apply list_elem_of_filter).
    rewrite Hl in Hin. by apply elem_of_nil in Hin.
Qed.

Lemma key_mapping_collision rs i j ri rj :
  i < j → rs !! i = Some ri → rs !! j = Some rj → blind_id ri = blind_id rj →
  size (key_mapping rs) < length rs.
Proof.
  intros Hij Hi Hj Hid. pose proof (size_key_mapping_le rs) as Hle.
  destruct (decide (size (key_mapping rs) = length rs)) as [Heq|]; [|lia].
  apply size_key_mapping_NoDup in Heq. exfalso.
  rewrite NoDup_alt in Heq. specialize (Heq i j (blind_id ri)).
  rewrite !list_lookup_fmap, Hi, Hj in Heq. simpl in Heq.
  rewrite Hid in Heq. specialize (Heq eq_refl eq_refl). lia.
Qed.

(** ** The files of a run *)

Lemma each_trial_rows w problems model P t trials rows :
  Batch.each_trial w problems model P t trials rows →
  Forall (λ row, ∃ t trial, P t trial row) rows.
Proof. induction 1; constructor; eauto. Qed.

Lemma computed_redacted w problems model t trial row :
  Batch.computed w problems model t trial row →
  Batch.redacted problems t trial row.
Proof.
  intros (problem & Hp & Hr & Hb)%computed_inv. cbv zeta in Hr, Hb.
  unfold Batch.redacted. rewrite Hr, Hb. simpl. eauto 10.
Qed.

Lemma computed_hashed w problems model t trial row :
  Batch.computed w problems model t trial row →
  Batch.hashed w t trial row.
Proof.
  intros (problem & Hp & Hr & Hb)%computed_inv. cbv zeta in Hr.
  unfold Batch.hashed. rewrite Hr. simpl. eexists _, _. split; [done|].
  apply length_slice_to.
Qed.

Section Files.
Context (w : World) (problems : dict Problem) (conditions : list Condition)
        (n : Z) (output_dir model : string) (t : nat).

Let o := (run_experiment_with w problems conditions n output_dir model t).1.

(** The three files are written, and hold the rows of the loop. *)
Lemma run_experiment_with_files :
  ∃ rows,
    Forall (λ row, ∃ t trial, Batch.computed w problems model t trial row) rows ∧
    is_Some (results_file o) ∧ is_Some (blind_eval_file o) ∧ is_Some (key_file o) ∧
    results_of o = rows.*1 ∧
    blind_of o ≡ₚ rows.*2 ∧
    key_of o = key_mapping rows.*1 ∧
    by_condition o = condition_lines conditions rows.*1 ∧
    by_problem o = problem_lines problems rows.*1 ∧
    returned o = summary rows.*1.
Proof.
  subst o.
  destruct (run_experiment_with_rows w problems conditions n output_dir model t)
    as (rows & t' & Hrows & ->).
  exists rows. unfold results_of, blind_of, key_of. simpl.
  split; [by eapply each_trial_rows|].
  repeat split; eauto. apply shuffle_Permutation.
Qed.

End Files.

(** The blind rows carry the blind ids of the results, in order. *)
Lemma rows_blind_ids problems (rows : list (TrialResult * Blind.Entry)) :
  Forall (λ row, ∃ t trial, Batch.redacted problems t trial row) rows →
  Blind.blind_id <$> rows.*2 = blind_id <$> rows.*1.
Proof.
  induction 1 as [|row rows (t & trial & Hid & _) _ IH]; [done|].
  rewrite !fmap_cons, IH. by f_equal.
Qed.

(** The files of [run_experiment_with]: with pairwise distinct blind ids the
    blind file and the key undo the redaction of the results file. *)
Lemma run_files_invert w problems conditions n output_dir model t :
  let o := (run_experiment_with w problems conditions n output_dir model t).1 in
  NoDup (blind_id <$> results_of o) →
  Inverse.inverse_files o ∧
  ∀ b r, b ∈ blind_of o → r ∈ results_of o → blind_id r = Blind.blind_id b →
    key_of o !! Blind.blind_id b = Some (condition r) ∧
    Inverse.reattach b (condition r) = Inverse.restrict r ∧
    ∃ problem, dict_get problems (problem_id r) = Some problem ∧
               Blind.prompt b = prompt problem.
Proof.
  intros o.
  destruct (run_experiment_with_files w problems conditions n output_dir model t)
    as (rows & Hrows & Hfr & Hfb & Hfk & Hr & Hb & Hk & _).
  fold o in Hfr, Hfb, Hfk, Hr, Hb, Hk.
  unfold Inverse.inverse_files, Inverse.exact_inverse, Inverse.rejoins.
  rewrite Hr, Hk. intros Hnd.
  assert (Hred : Forall (λ row, ∃ t trial, Batch.redacted problems t trial row) rows).
  { eapply Forall_impl; [exact Hrows|]. intros row (t0 & trial & Hc).
    eauto using computed_redacted. }
  assert (Hpair : ∀ b r, b ∈ blind_of o → r ∈ rows.*1 → blind_id r = Blind.blind_id b →
            Inverse.reattach b (condition r) = Inverse.restrict r ∧
            ∃ problem, dict_get problems (problem_id r) = Some problem ∧
                       Blind.prompt b = prompt problem).
  { intros b r Hbin Hrin Hid. rewrite Hb in Hbin.
    apply list_elem_of_fmap in Hbin as ([r0 b0] & -> & Hrow).
    rewrite Forall_forall in Hred.
    destruct (Hred _ Hrow) as (t0 & trial & Hbid & Hpid & Hcm & Hps & _ & Hprompt).
    simpl in *.
    assert (r = r0) as ->.
    { apply (NoDup_fmap_eq blind_id rows.*1); [done..| |congruence].
      by apply (list_elem_of_fmap_2 fst) in Hrow. }
    split; [|done]. unfold Inverse.reattach, Inverse.restrict. congruence. }
  split.
  - split; [done|]. split; [done|]. split; [done|]. split.
    + rewrite Hb. by erewrite rows_blind_ids.
    + intros b Hbin. pose proof Hbin as Hbin'. rewrite Hb in Hbin'.
      apply list_elem_of_fmap in Hbin' as ([r0 b0] & -> & Hrow).
      assert (r0 ∈ rows.*1) as Hr0 by (by apply (list_elem_of_fmap_2 fst) in Hrow).
      rewrite Forall_forall in Hred. destruct (Hred _ Hrow) as (t0 & trial & Hbid & _).
      simpl in *. exists (condition r0), r0. rewrite Hbid. split.
      * by apply key_mapping_NoDup_lookup.
      * split; [done|]. by destruct (Hpair b0 r0 Hbin Hr0 (eq_sym Hbid)).
  - intros b r Hbin Hrin Hid. split; [|by apply Hpair].
    rewrite <-Hid. by apply key_mapping_NoDup_lookup.
Qed.

(** A call that writes its key file met no failure: it is the run of
    [run_experiment_with] on the problems loaded. *)
Lemma script_key_written h w n output_dir model t :
  is_Some (key_file (Script.run_experiment h w n output_dir model t).1) →
  ∃ ds, anthropic_client h = Ok tt ∧ mkdir h output_dir = Ok tt ∧
        load_dataset h = Ok ds ∧
        (Script.run_experiment h w n output_dir model t).1
        = (run_experiment_with w (load_humaneval_problems ds SELECTED_PROBLEMS)
             CONDITIONS n output_dir model t).1.
Proof.
  unfold Script.run_experiment, run_experiment_with.
  destruct (anthropic_client h) as [[]|e]; [|by intros [? [=]]].
  destruct (mkdir h output_dir) as [[]|e]; [|by intros [? [=]]].
  destruct (load_dataset h) as [ds|e]; [|by intros [? [=]]].
  intros Hkey. exists ds. do 3 (split; [done|]). revert Hkey.
  unfold bind, event, ret.
  destruct (shuffle _ _ t) as [trials t0].
  destruct (run_trials _ _ _ trials [] [] t0) as [[[results blind]|e] t1]; [|done].
  simpl. destruct (open_write h _) as [[]|e]; [|by intros [? [=]]].
  destruct (open_write h _) as [[]|e]; [|by intros [? [=]]].
  destruct (shuffle _ blind (S t1)) as [shuffled t2].
  destruct (open_write h _) as [[]|e]; [|by intros [? [=]]]. done.
Qed.

(** So is every call on a host where nothing fails. *)
Lemma script_obliging h w n output_dir model t ds :
  Script.obliging h output_dir ds →
  Script.run_experiment h w n output_dir model t
  = run_experiment_with w (load_humaneval_problems ds SELECTED_PROBLEMS)
      CONDITIONS n output_dir model t.
Proof.
  intros (Hclient & Hdir & Hload & Hwrite).
  unfold Script.run_experiment, run_experiment_with.
  rewrite Hclient, Hdir, Hload. unfold bind, event, ret.
  destruct (shuffle _ _ t) as [trials t0].
  destruct (run_trials _ _ _ trials [] [] t0) as [[[results blind]|e] t1]; [|done].
  simpl. rewrite !Hwrite. by destruct (shuffle _ blind (S t1)) as [shuffled t2].
Qed.

(** C1, amended: in a call that gets as far as writing its key file (the
    client of the service, the output directory, the benchmark and the three
    writes raise nothing) and whose blind ids are pairwise distinct, the
    three files are written, the blind ids of the blind file are those of
    the results file up to order, every blind row has its id in the key,
    and the result with that id is the row with the condition of the key
    attached: both agree on blind id, problem id, completion, pass flag and
    condition.  (A result carries no prompt; the prompt of the blind row is
    that of its problem.) *)
Theorem blind_and_key_invert h w n output_dir model t :
  let o := (Script.run_experiment h w n output_dir model t).1 in
  is_Some (key_file o) →
  NoDup (blind_id <$> results_of o) →
  Inverse.inverse_files o ∧
  ∀ b r, b ∈ blind_of o → r ∈ results_of o → blind_id r = Blind.blind_id b →
    key_of o !! Blind.blind_id b = Some (condition r) ∧
    Inverse.reattach b (condition r) = Inverse.restrict r ∧
    ∃ ds problem,
      load_dataset h = Ok ds ∧
      dict_get (load_humaneval_problems ds SELECTED_PROBLEMS) (problem_id r)
      = Some problem ∧
      Blind.prompt b = prompt problem.
Proof.
  intros o Hkey. subst o.
  destruct (script_key_written h w n output_dir model t Hkey) as (ds & _ & _ & Hds & ->).
  intros Hnd.
  destruct (run_files_invert w (load_humaneval_problems ds SELECTED_PROBLEMS) CONDITIONS
              n output_dir model t Hnd) as [Hinv Hrows].
  split; [done|]. intros b r Hb Hr Hid.
  destruct (Hrows b r Hb Hr Hid) as (Hk & Hre & problem & Hp & Hprompt).
  split; [done|]. split; [done|]. by exists ds, problem.
Qed.

(** C1, as worded, fails: under a clock that stands still the two trials of
    this run get the same blind id, the key keeps the condition of the
    second, and the blind row of the first, with that condition attached, is
    no result of the results file. *)
Lemma frozen_clock_breaks_inverse :
  ¬ Inverse.inverse_files
      (run_experiment_with Samples.frozen [("HumanEval/2", Samples.truncate_number)]
         [Samples.control; Samples.common_english] 1 "./results" "m" 0).1.
Proof.
  intros (_ & _ & _ & _ & Hrejoin).
  set (o := (run_experiment_with _ _ _ _ _ _ _).1) in Hrejoin.
  assert (Hb : ∃ b, blind_of o !! 0 = Some b) by (vm_compute; eauto).
  destruct Hb as [b Hb]. pose proof Hb as Hb'. vm_compute in Hb'. 
  destruct (Hrejoin b) as (c & r & Hk & Hr & Heq).
  { by eapply list_elem_of_lookup_2. }
  injection Hb' as <-.
  vm_compute in Hk. injection Hk as <-.
  assert (Hrs : ∃ r1 r2, results_of o = [r1; r2]) by (vm_compute; eauto).
  destruct Hrs as (r1 & r2 & Hrs). rewrite Hrs in Hr. vm_compute in Hrs.
  injection Hrs as <- <-.
  apply elem_of_cons in Hr as [->|Hr]; [discriminate Heq|].
  apply list_elem_of_singleton in Hr as ->. discriminate Heq.
Qed.

Lemma blind_and_key_invert_witness :
  Inverse.inverse_files
    (Script.run_experiment Samples.ready Samples.calm 1 "./results" "m" 0).1.
Proof.
  refine (proj1 (blind_and_key_invert Samples.ready Samples.calm 1 "./results" "m" 0 _ _)).
  - vm_compute. eauto.
  - refine (bool_decide_unpack _ _). vm_compute. exact I.
Defined.

(** ** Blind ids that collide *)

Lemma filter_none {A} (P : A → Prop) `{∀ x, Decision (P x)} (l : list A) :
  Forall (λ y, ¬ P y) l → filter P l = [].
Proof.
  induction 1 as [|y l Hy _ IH]; [done|]. by rewrite filter_cons_False.
Qed.

Lemma last_filter_lookup {A} (P : A → Prop) `{∀ x, Decision (P x)} (l : list A) j x :
  l !! j = Some x → P x →
  (∀ k y, j < k → l !! k = Some y → ¬ P y) →
  last (filter P l) = Some x.
Proof.
  intros Hj Hx Hlater.
  rewrite <-(take_drop_middle l j x Hj), filter_app, filter_cons_True by done.
  rewrite (filter_none P (drop (S j) l)); [by rewrite last_snoc|].
  apply Forall_lookup. intros k y Hk. rewrite lookup_drop in Hk.
  apply (Hlater (S j + k)); [lia|done].
Qed.

(** C9: the key file is the mapping built from the results in order, each
    blind id is the first twelve characters of the digest of a clock reading
    and a random draw, and nothing makes the ids distinct: when two results
    share a blind id the key has fewer entries than there are results and
    keeps, for that id, the condition of the later one (of the last result
    with that id); the key has one entry per result exactly when the blind
    ids are pairwise distinct, and then it gives every result its own
    condition. *)
Theorem key_keeps_last_condition w problems conditions n output_dir model t :
  let o := (run_experiment_with w problems conditions n output_dir model t).1 in
  let results := results_of o in
  let key := key_of o in
  is_Some (key_file o) ∧ key = key_mapping results ∧
  Forall (λ r, ∃ t1 t2,
            blind_id r = slice_to 12 (sha256_hexdigest w (isoformat (now w t1) +:+ random w t2)) ∧
            String.length (blind_id r) <= 12) results ∧
  (∀ i j ri rj,
     i < j → results !! i = Some ri → results !! j = Some rj →
     blind_id ri = blind_id rj →
     size key < length results ∧
     ((∀ k rk, j < k → results !! k = Some rk → blind_id rk ≠ blind_id rj) →
      key !! blind_id ri = Some (condition rj))) ∧
  (size key = length results ↔ NoDup (blind_id <$> results)) ∧
  (NoDup (blind_id <$> results) →
   ∀ r, r ∈ results → key !! blind_id r = Some (condition r)).
Proof.
  intros o results key.
  destruct (run_experiment_with_files w problems conditions n output_dir model t)
    as (rows & Hrows & _ & _ & Hfk & Hr & _ & Hk & _).
  fold o in Hfk, Hr, Hk. fold results in Hr. fold key in Hk.
  split; [done|]. split; [by rewrite Hk, Hr|].
  rewrite Hk, <-Hr. split.
  { rewrite Hr. apply Forall_fmap. eapply Forall_impl; [exact Hrows|].
    intros row (t0 & trial & Hc). apply computed_hashed in Hc.
    destruct Hc as (t1 & t2 & Hid & Hlen). simpl. eauto. }
  split.
  { intros i j ri rj Hij Hi Hj Hid. split; [by eapply key_mapping_collision|].
    intros Hlast. rewrite key_mapping_lookup.
    erewrite last_filter_lookup; [done|exact Hj|done|].
    intros k rk Hjk Hrk. rewrite Hid. by eapply Hlast. }
  split; [apply size_key_mapping_NoDup|].
  intros Hnd r Hin. by apply key_mapping_NoDup_lookup.
Qed.

Lemma key_keeps_last_condition_witness :
  let o := (run_experiment_with Samples.frozen [("HumanEval/2", Samples.truncate_number)]
              [Samples.control; Samples.common_english] 1 "./results" "m" 0).1 in
  size (key_of o) < length (results_of o) ∧
  key_of o !! "2026-01-01T0" = Some "common_english".
Proof.
  intros o.
  pose proof (key_keeps_last_condition Samples.frozen
                [("HumanEval/2", Samples.truncate_number)]
                [Samples.control; Samples.common_english] 1 "./results" "m" 0)
    as (_ & _ & _ & Hshared & _).
  fold o in Hshared.
  assert (Hi : ∃ ri, results_of o !! 0 = Some ri) by (vm_compute; eauto).
  assert (Hj : ∃ rj, results_of o !! 1 = Some rj) by (vm_compute; eauto).
  destruct Hi as [ri Hi], Hj as [rj Hj].
  pose proof Hi as Hi'. pose proof Hj as Hj'. vm_compute in Hi', Hj'.
  injection Hi' as Hri. injection Hj' as Hrj.
  destruct (Hshared 0 1 ri rj) as [Hsize Hlast]; [lia|done|done|by subst|].
  split; [done|].
  rewrite <-Hri, <-Hrj in Hlast. apply Hlast.
  intros k rk Hk Hrk. exfalso.
  apply lookup_lt_Some in Hrk. vm_compute in Hrk. lia.
Defined.

(** ** The empty run *)



(** The division is reached only when nothing failed before it: when the
    parent of the output directory is missing, the call with a trial count
    of zero raises at the creation of the directory, nothing is divided and
    no file is written. *)
Lemma missing_directory_raises_first :
  let o := (Script.run_experiment Samples.no_parent Samples.calm 0 "missing/results"
              "claude-sonnet-4-20250514" 0).1 in
  ¬ (returned o = Raise {| exn_class := ZeroDivisionError; exn_str := "division by zero" |} ∧
     is_Some (results_file o) ∧ is_Some (blind_eval_file o) ∧ is_Some (key_file o)).
Proof. intros o [Hraise _]. vm_compute in Hraise. discriminate. Qed.



(** ** The scoring session *)

Import Quality.

Lemma in_range_Forall parts :
  in_range parts = true → Forall (λ x, (1 ≤ x ≤ 5)%Z) parts.
Proof.
  unfold in_range. rewrite forallb_forall, Forall_forall.
  intros Hall x Hx. apply list_elem_of_In, Hall in Hx.
  apply andb_prop in Hx as [H1 H5]. lia.
Qed.

Lemma read_scores_inl response r : read_scores response = inl r → well_scored r.
Proof.
  unfold read_scores. destruct (parse_parts response) as [parts|]; [|done].
  destruct parts as [|p0 [|p1 [|p2 [|p3 [|p4 [|]]]]]]; try done.
  destruct (in_range _) eqn:Hrange; [|done]. intros [= <-].
  split; [by apply in_range_Forall|]. simpl. lia.
Qed.

Lemma read_scores_rejected line :
  rejected line ↔
  lower (strip line) ≠ "q" ∧ lower (strip line) ≠ "s" ∧
  ∃ message, read_scores (lower (strip line)) = inr message.
Proof.
  unfold rejected, read_scores. cbv zeta.
  split; intros (Hq & Hs & H); (split; [done|]); (split; [done|]).
  - destruct (parse_parts _) as [parts|]; [|eauto].
    destruct (H parts eq_refl) as [Hlen|Hrange].
    + destruct parts as [|p0 [|p1 [|p2 [|p3 [|p4 [|]]]]]]; eauto. done.
    + rewrite Hrange. destruct parts as [|p0 [|p1 [|p2 [|p3 [|p4 [|]]]]]]; eauto.
  - destruct H as [message H]. intros parts Hparts. rewrite Hparts in H.
    destruct parts as [|p0 [|p1 [|p2 [|p3 [|p4 [|]]]]]]; auto.
    right. by destruct (in_range _).
Qed.

Lemma ask_recorded inputs r rest printed :
  ask inputs = (Recorded r, rest, printed) → well_scored r.
Proof.
  revert printed. induction inputs as [|line inputs IH]; intros printed; [done|].
  simpl. repeat case_decide; try done.
  destruct (read_scores _) as [r'|message] eqn:Hread.
  - intros [= <- _ _]. by eapply read_scores_inl.
  - destruct (ask inputs) as [[answer rest'] printed']. intros [= -> -> _]. by eapply IH.
Qed.

Lemma ask_printed inputs blind_id :
  Shown blind_id ∉ (ask inputs).2.
Proof.
  induction inputs as [|line inputs IH]; simpl; [apply not_elem_of_nil|].
  repeat case_decide; simpl; try apply not_elem_of_nil.
  - apply not_elem_of_cons. split; [done|apply not_elem_of_nil].
  - destruct (read_scores _) as [r'|message]; simpl.
    + apply not_elem_of_cons. split; [done|apply not_elem_of_nil].
    + destruct (ask inputs) as [[answer rest'] printed']. simpl in *.
      apply not_elem_of_cons. split; [done|done].
Qed.

Lemma ask_rejected line rest :
  rejected line →
  ∃ message,
    message ∈ ["Invalid format. Use: 3,2,4,3,3"; "Need exactly 5 scores"; "Scores must be 1-5"] ∧
    ask (line :: rest) = ((ask rest).1.1, (ask rest).1.2, Said message :: (ask rest).2).
Proof.
  intros (Hq & Hs & message & Hread)%read_scores_rejected.
  exists message. split.
  - unfold read_scores in Hread. destruct (parse_parts _) as [parts|].
    + destruct parts as [|p0 [|p1 [|p2 [|p3 [|p4 [|]]]]]];
        try (injection Hread as <-; set_solver).
      destruct (in_range _); [done|]. injection Hread as <-. set_solver.
    + injection Hread as <-. set_solver.
  - simpl. rewrite !decide_False by done. rewrite Hread.
    by destruct (ask rest) as [[answer rest'] printed'].
Qed.

Lemma session_scores data : ∀ scores inputs shown final,
  written (session data scores inputs shown) = Some final ∨
  result (session data scores inputs shown) = Ok final →
  ∀ id r, final !! id = Some r → scores !! id = Some r ∨ well_scored r.
Proof.
  induction data as [|item data IH]; intros scores inputs shown final; simpl.
  - intros [[= <-]|[= <-]]; auto.
  - destruct (scores !! Blind.blind_id item) as [r0|] eqn:Hitem; [by apply IH|].
    destruct (ask inputs) as [[answer inputs'] printed] eqn:Hask.
    destruct answer as [| |r0|]; simpl.
    + intros [[= <-]|[= <-]]; auto.
    + by apply IH.
    + intros Hfinal id r Hr.
      destruct (IH _ _ _ _ Hfinal id r Hr) as [Hin|]; [|by right].
      apply lookup_insert_Some in Hin as [[_ <-]|[_ Hin]]; [|by left].
      right. by eapply ask_recorded.
    + intros [|]; done.
Qed.

Lemma session_kept data : ∀ scores inputs shown id r,
  scores !! id = Some r → Shown id ∉ shown →
  let s := session data scores inputs shown in
  (Shown id ∉ console s) ∧
  (∀ m, written s = Some m → m !! id = Some r) ∧
  (∀ m, result s = Ok m → m !! id = Some r).
Proof.
  induction data as [|item data IH]; intros scores inputs shown id r Hid Hshown; simpl.
  - split; [done|]. split; by intros m [= <-].
  - destruct (scores !! Blind.blind_id item) as [r0|] eqn:Hitem.
    { apply IH; [done|]. apply not_elem_of_app. split; [done|].
      apply not_elem_of_cons. split; [done|apply not_elem_of_nil]. }
    assert (Hne : Blind.blind_id item ≠ id) by congruence.
    pose proof (ask_printed inputs id) as Hprinted.
    destruct (ask inputs) as [[answer inputs'] printed] eqn:Hask. simpl in Hprinted.
    assert (Hshown' : Shown id ∉ (shown ++ Shown (Blind.blind_id item) :: printed)).
    { apply not_elem_of_app. split; [done|].
      apply not_elem_of_cons. split; [congruence|done]. }
    destruct answer as [| |r0|]; simpl.
    + split; [done|]. split; by intros m [= <-].
    + by apply IH.
    + apply IH; [|done]. by rewrite lookup_insert_ne.
    + split; [done|]. split; by intros m.
Qed.

Lemma session_shown data : ∀ scores inputs shown shown',
  written (session data scores inputs shown) = written (session data scores inputs shown') ∧
  result (session data scores inputs shown) = result (session data scores inputs shown').
Proof.
  induction data as [|item data IH]; intros scores inputs shown shown'; simpl; [done|].
  destruct (scores !! Blind.blind_id item); [apply IH|].
  destruct (ask inputs) as [[answer inputs'] printed].
  destruct answer; simpl; auto.
Qed.

Lemma ask_skip line before after :
  rejected line →
  (∃ before', (ask (before ++ line :: after)).1
              = ((ask (before ++ after)).1.1, before' ++ line :: after) ∧
              (ask (before ++ after)).1.2 = before' ++ after) ∨
  (ask (before ++ line :: after)).1 = (ask (before ++ after)).1.
Proof.
  intros Hrej. induction before as [|l before IH].
  - right. rewrite !app_nil_l.
    destruct (ask_rejected line after Hrej) as (message & _ & ->).
    simpl. by destruct (ask after) as [[? ?] ?].
  - simpl. repeat case_decide; simpl; eauto.
    destruct (read_scores _) as [r|message]; simpl; eauto.
    destruct (ask (before ++ line :: after)) as [[a1 r1] p1].
    destruct (ask (before ++ after)) as [[a2 r2] p2]. simpl in *. done.
Qed.

Lemma session_skip line data :
  rejected line → ∀ scores before after shown shown',
  written (session data scores (before ++ line :: after) shown)
  = written (session data scores (before ++ after) shown') ∧
  result (session data scores (before ++ line :: after) shown)
  = result (session data scores (before ++ after) shown').
Proof.
  intros Hrej. induction data as [|item data IH];
    intros scores before after shown shown'; simpl; [done|].
  destruct (scores !! Blind.blind_id item); [apply IH|].
  destruct (ask_skip line before after Hrej) as [(before' & H1 & H2)|H].
  - destruct (ask (before ++ line :: after)) as [[a1 r1] p1].
    destruct (ask (before ++ after)) as [[a2 r2] p2]. simpl in *.
    injection H1 as -> ->. subst r2. destruct a2; simpl; auto.
  - destruct (ask (before ++ line :: after)) as [[a1 r1] p1].
    destruct (ask (before ++ after)) as [[a2 r2] p2]. simpl in *.
    injection H as -> ->. destruct a2; simpl; auto using session_shown.
Qed.

(** C5: every score record a session creates (every entry of the scores it
    writes or returns that was not loaded from the score file, and every
    record the prompt loop accepts) has its five values in [[1, 5]] and a
    total equal to their sum; a line with an unparsable token, a wrong
    number of values or a value out of range is answered with one of the
    three messages, the prompt is repeated on the following lines, and the
    scores written and returned are those of the session without that
    line. *)
Theorem score_records_well_formed data stored inputs :
  let s := evaluate_interactively data stored inputs in
  (∀ final id r,
     written s = Some final ∨ result s = Ok final →
     final !! id = Some r →
     default ∅ stored !! id = Some r ∨ well_scored r) ∧
  (∀ typed r left printed, ask typed = (Recorded r, left, printed) → well_scored r) ∧
  (∀ line, rejected line →
     (∀ rest, ∃ message,
        message ∈ ["Invalid format. Use: 3,2,4,3,3"; "Need exactly 5 scores";
                   "Scores must be 1-5"] ∧
        ask (line :: rest) = ((ask rest).1.1, (ask rest).1.2, Said message :: (ask rest).2)) ∧
     (∀ before after,
        written (evaluate_interactively data stored (before ++ line :: after))
        = written (evaluate_interactively data stored (before ++ after)) ∧
        result (evaluate_interactively data stored (before ++ line :: after))
        = result (evaluate_interactively data stored (before ++ after)))).
Proof.
  intros s. split; [|split].
  - intros final id r Hfinal Hr. by eapply session_scores.
  - intros typed r left printed Hask. by eapply ask_recorded.
  - intros line Hrej. split.
    + intros rest. by apply ask_rejected.
    + intros before after. by apply session_skip.
Qed.

(** C7: a blind id present in the score file when the session starts is
    never put on display, and the scores the session writes and returns
    hold under that id the record that was loaded. *)
Theorem existing_scores_kept data stored inputs id r :
  default ∅ stored !! id = Some r →
  let s := evaluate_interactively data stored inputs in
  (Shown id ∉ console s) ∧
  (∀ m, written s = Some m → m !! id = Some r) ∧
  (∀ m, result s = Ok m → m !! id = Some r).
Proof. intros Hid. apply session_kept; [done|apply not_elem_of_nil]. Qed.

Lemma score_records_well_formed_witness :
  written (evaluate_interactively Samples.two_samples None
             ["5,5,5,5,5"; "3,2,4,3"; "3,2,4,3,3"])
  = written (evaluate_interactively Samples.two_samples None
               ["5,5,5,5,5"; "3,2,4,3,3"]).
Proof.
  refine (proj1 (proj2 (proj2 (proj2
    (score_records_well_formed Samples.two_samples None []))
    "3,2,4,3" _) ["5,5,5,5,5"] ["3,2,4,3,3"])).
  split; [vm_compute; discriminate|]. split; [vm_compute; discriminate|].
  intros parts Hparts. vm_compute in Hparts. injection Hparts as <-.
  left. simpl. lia.
Defined.

Lemma existing_scores_kept_witness :
  let s := evaluate_interactively Samples.two_samples (Some Samples.one_scored)
             ["1,1,1,1,1"] in
  (Shown "abc123" ∉ console s) ∧
  (∀ m, written s = Some m → m !! "abc123" = Some Samples.abc123_score) ∧
  (∀ m, result s = Ok m → m !! "abc123" = Some Samples.abc123_score).
Proof.
  apply (existing_scores_kept Samples.two_samples (Some Samples.one_scored)
           ["1,1,1,1,1"] "abc123" Samples.abc123_score).
  vm_compute. reflexivity.
Defined.

(** ** The analyzer *)

Lemma dict_get_set {V} (d : dict V) k v k' :
  dict_get (dict_set d k v) k' = if decide (k = k') then Some v else dict_get d k'.
Proof.
  induction d as [|[k0 v0] d IH]; simpl.
  - done.
  - destruct (decide (k0 = k)) as [->|Hne]; simpl.
    + by destruct (decide (k = k')).
    + rewrite IH. destruct (decide (k0 = k')) as [->|]; [|done].
      by rewrite decide_False.
Qed.

Lemma group_by_condition_nonempty scores key c group :
  dict_get (Reveal.group_by_condition scores key) c = Some group → group ≠ [].
Proof.
  unfold Reveal.group_by_condition.
  assert (Hinit : ∀ c group, dict_get ([] : dict (list Quality.ScoreRecord)) c = Some group
                             → group ≠ []) by done.
  revert Hinit c group. generalize ([] : dict (list Quality.ScoreRecord)).
  induction scores as [|[blind_id score_data] scores IH]; intros d Hd c group; simpl.
  - apply Hd.
  - apply IH. clear c group. intros c group.
    destruct (key !! blind_id) as [condition|]; [|apply Hd].
    case_decide; [apply Hd|]. unfold dict_append. rewrite dict_get_set.
    case_decide; [|apply Hd]. intros [= <-]. by intros [? ?]%app_eq_nil.
Qed.

Section Analyzer.
Local Open Scope R_scope.

Lemma mean_is_Some data : data ≠ [] → ∃ m, Reveal.mean data = Some m.
Proof. destruct data; [done|]. simpl. eauto. Qed.

Lemma stdev_or_zero_is_Some totals :
  totals ≠ [] →
  ∃ std, Reveal.stdev_or_zero totals = Some std ∧ (length totals = 1%nat → std = 0).
Proof.
  intros Hne. unfold Reveal.stdev_or_zero.
  destruct (1 <? length totals)%nat eqn:Hlen.
  - apply Nat.ltb_lt in Hlen. unfold Reveal.stdev.
    destruct (mean_is_Some totals Hne) as [m ->].
    destruct (length totals <? 2)%nat eqn:Hlen2; [apply Nat.ltb_lt in Hlen2; lia|].
    eexists. split; [done|]. lia.
  - eauto.
Qed.

Lemma truthy_true x : Reveal.truthy x = true ↔ x ≠ 0.
Proof. unfold Reveal.truthy. destruct (Req_dec_T x 0); split; done. Qed.

Lemma truthy_false x : Reveal.truthy x = false ↔ x = 0.
Proof. unfold Reveal.truthy. destruct (Req_dec_T x 0); split; done. Qed.

Lemma pooled_cases F control_std std :
  (control_std = 0 ∨ std = 0 → Reveal.pooled F control_std std = 1) ∧
  (control_std ≠ 0 → std ≠ 0 →
   Reveal.pooled F control_std std
   = Reveal.fpow F (Reveal.fl F (Reveal.fl F (Reveal.fpow F control_std 2
                                              + Reveal.fpow F std 2) / 2)) (1 / 2)).
Proof.
  unfold Reveal.pooled.
  destruct (Reveal.truthy control_std) eqn:Hc; destruct (Reveal.truthy std) eqn:Hs; cbn [andb].
  all: try apply truthy_true in Hc; try apply truthy_true in Hs.
  all: try apply truthy_false in Hc; try apply truthy_false in Hs.
  - split; [intros [|]; done|done].
  - split; [done|intros ? ?; congruence].
  - split; [done|intros ? ?; congruence].
  - split; [done|intros ? ?; congruence].
Qed.

Lemma fmean_nonempty F data :
  data ≠ [] → Reveal.fmean F data = Some (Reveal.fl F (Worded.arithmetic_mean data)).
Proof. by destruct data. Qed.

Lemma fstdev_or_zero_nonempty F totals :
  totals ≠ [] →
  ∃ std, Reveal.fstdev_or_zero F totals = Some std ∧
         (length totals = 1%nat → std = 0) ∧
         ((1 < length totals)%nat →
          std = Reveal.froot F (Worded.sample_variance totals)).
Proof.
  intros Hne. unfold Reveal.fstdev_or_zero.
  destruct (1 <? length totals)%nat eqn:Hlen.
  - apply Nat.ltb_lt in Hlen. unfold Reveal.fstdev, Reveal.variance.
    destruct totals as [|x totals]; [done|]. cbn [Reveal.mean].
    destruct (length (x :: totals) <? 2)%nat eqn:Hlen2; [apply Nat.ltb_lt in Hlen2; lia|].
    eexists. split; [done|]. split; [lia|]. done.
  - apply Nat.ltb_ge in Hlen. exists 0. split; [done|]. split; [done|lia].
Qed.

Lemma mapM_Forall2 {A B} (f : A → option B) (P : A → B → Prop) (l : list A) :
  Forall (λ x, ∃ y, f x = Some y ∧ P x y) l →
  ∃ k, mapM f l = Some k ∧ Forall2 P l k.
Proof.
  induction 1 as [|x l (y & Hy & HP) _ (k & Hk & HF)].
  - exists []. by split; [|constructor].
  - exists (y :: k). simpl. rewrite Hy. simpl. rewrite Hk. simpl.
    split; [done|]. by constructor.
Qed.

Lemma present_spec by_condition names :
  Forall (λ g, ∃ group, dict_get by_condition g.1 = Some group ∧
                        g.2 = Quality.total <$> group)
         (Reveal.present by_condition names) ∧
  (Reveal.present by_condition names).*1
  = filter (λ c, is_Some (dict_get by_condition c)) names.
Proof.
  unfold Reveal.present. induction names as [|c names [IH1 IH2]]; [by split|].
  simpl. destruct (dict_get by_condition c) as [group|] eqn:Hc; simpl.
  - rewrite filter_cons_True by (by rewrite Hc). split.
    + constructor; [by exists group|done].
    + cbn. f_equal. exact IH2.
  - rewrite filter_cons_False by (rewrite Hc; by intros [? ?]). by split.
Qed.

Lemma compare_spec F control_mean control_std c totals :
  totals ≠ [] →
  ∃ row, Reveal.compare F control_mean control_std c totals = Some row ∧
    Reveal.condition row = c ∧
    Reveal.cmp_mean row = Reveal.fl F (Worded.arithmetic_mean totals) ∧
    (length totals = 1%nat → Reveal.cmp_std row = 0) ∧
    ((1 < length totals)%nat →
     Reveal.cmp_std row = Reveal.froot F (Worded.sample_variance totals)) ∧
    Reveal.diff row = Reveal.fl F (Reveal.cmp_mean row - control_mean) ∧
    Reveal.pooled_std row = Reveal.pooled F control_std (Reveal.cmp_std row) ∧
    (Reveal.pooled_std row ≠ 0 →
     Reveal.effect row = Reveal.fl F (Reveal.diff row / Reveal.pooled_std row)) ∧
    (Reveal.pooled_std row = 0 → Reveal.effect row = 0).
Proof.
  intros Hne. unfold Reveal.compare.
  rewrite (fmean_nonempty F totals Hne).
  destruct (fstdev_or_zero_nonempty F totals Hne) as (std & Hstd & Hone & Hmore).
  rewrite Hstd. cbn [mbind option_bind]. eexists. split; [done|].
  cbn [Reveal.condition Reveal.cmp_mean Reveal.cmp_std Reveal.diff Reveal.pooled_std
       Reveal.effect].
  do 6 (split; [done|]). split.
  - intros Hnz. apply truthy_true in Hnz. by rewrite Hnz.
  - intros Hz. apply truthy_false in Hz. by rewrite Hz.
Qed.

(** C8: for totals up to [2 ^ 52] in absolute value and with a control
    group, the analyzer reports the baseline and one line for each
    treatment that has scores.  The mean of a group is the float of the
    exact mean of its totals; its standard deviation is 0 for a group of
    one score and otherwise the float [statistics.stdev] gives for the
    sample variance; the difference is the float of the mean of the
    condition minus the mean of the control group; the pooled standard
    deviation is 1 as soon as one of the two deviations is zero, and
    otherwise the power one half of the half-sum of their squares, each
    step in floats; the effect size is the float of the difference divided
    by the pooled standard deviation (0 should that be zero). *)
Theorem effect_size_conventions F scores key control :
  let by_condition := Reveal.group_by_condition scores key in
  Reveal.small scores →
  dict_get by_condition "control" = Some control →
  ∃ control_mean control_std rows,
    Reveal.analyze F scores key = Some (Reveal.Compared control_mean control_std rows) ∧
    control_mean = Reveal.fl F (Worded.arithmetic_mean (Quality.total <$> control)) ∧
    (length control = 1%nat → control_std = 0) ∧
    ((1 < length control)%nat →
     control_std = Reveal.froot F (Worded.sample_variance (Quality.total <$> control))) ∧
    Reveal.condition <$> rows
    = filter (λ c, is_Some (dict_get by_condition c)) Reveal.treatments ∧
    Forall (λ row,
      ∃ group,
        dict_get by_condition (Reveal.condition row) = Some group ∧
        Reveal.cmp_mean row
        = Reveal.fl F (Worded.arithmetic_mean (Quality.total <$> group)) ∧
        (length group = 1%nat → Reveal.cmp_std row = 0) ∧
        ((1 < length group)%nat →
         Reveal.cmp_std row
         = Reveal.froot F (Worded.sample_variance (Quality.total <$> group))) ∧
        Reveal.diff row = Reveal.fl F (Reveal.cmp_mean row - control_mean) ∧
        (control_std = 0 ∨ Reveal.cmp_std row = 0 → Reveal.pooled_std row = 1) ∧
        (control_std ≠ 0 → Reveal.cmp_std row ≠ 0 →
         Reveal.pooled_std row
         = Reveal.fpow F
             (Reveal.fl F (Reveal.fl F (Reveal.fpow F control_std 2
                                        + Reveal.fpow F (Reveal.cmp_std row) 2) / 2))
             (1 / 2)) ∧
        (Reveal.pooled_std row ≠ 0 →
         Reveal.effect row = Reveal.fl F (Reveal.diff row / Reveal.pooled_std row)) ∧
        (Reveal.pooled_std row = 0 → Reveal.effect row = 0)) rows.
Proof.
  intros by_condition _ Hcontrol. unfold Reveal.analyze. fold by_condition.
  rewrite Hcontrol.
  assert (Hne : Quality.total <$> control ≠ []).
  { apply group_by_condition_nonempty in Hcontrol. by destruct control. }
  rewrite (fmean_nonempty F _ Hne). cbn [mbind option_bind].
  destruct (fstdev_or_zero_nonempty F _ Hne) as (cs & Hcs & Hone & Hmore).
  rewrite Hcs. cbn [mbind option_bind]. rewrite length_fmap in Hone, Hmore.
  set (cm := Reveal.fl F (Worded.arithmetic_mean (Quality.total <$> control))).
  destruct (present_spec by_condition Reveal.treatments) as [Hgroups Hnames].
  destruct (mapM_Forall2 (λ g, Reveal.compare F cm cs g.1 g.2)
              (λ g row, ∃ group,
                 dict_get by_condition g.1 = Some group ∧ g.2 = Quality.total <$> group ∧
                 Reveal.compare F cm cs g.1 g.2 = Some row)
              (Reveal.present by_condition Reveal.treatments)) as (rows & -> & Hrows).
  { eapply Forall_impl; [exact Hgroups|]. intros g (group & Hg & Hgt).
    destruct (compare_spec F cm cs g.1 g.2) as (row & Hrow & _).
    - rewrite Hgt. apply group_by_condition_nonempty in Hg. by destruct group.
    - exists row. split; [done|]. by exists group. }
  cbn [mbind option_bind]. exists cm, cs, rows.
  split; [done|]. split; [done|]. split; [done|]. split; [done|].
  assert (Forall2 (λ g row, Reveal.condition row = g.1 ∧ ∃ group,
            dict_get by_condition g.1 = Some group ∧ g.2 = Quality.total <$> group ∧
            Reveal.compare F cm cs g.1 g.2 = Some row)
            (Reveal.present by_condition Reveal.treatments) rows) as Hrows'.
  { eapply Forall2_impl; [exact Hrows|]. intros g row (group & Hg & Hgt & Hrow).
    split; [|by exists group].
    destruct (compare_spec F cm cs g.1 g.2) as (row' & Hrow' & Hc & _).
    { rewrite Hgt. apply group_by_condition_nonempty in Hg. by destruct group. }
    congruence. }
  clear Hrows. split.
  - rewrite <-Hnames. clear -Hrows'.
    induction Hrows' as [|g row gs rows [Hc _] _ IH]; [done|].
    rewrite !fmap_cons, IH. by f_equal.
  - clear -Hrows'.
    induction Hrows' as [|g row gs rows (Hcond & group & Hg & Hgt & Hrow) _ IH];
      constructor; [|done].
    destruct (compare_spec F cm cs g.1 g.2)
      as (row' & Hrow' & Hc & Hm & H1 & Hn & Hd & Hp & He & Hz).
    { rewrite Hgt. apply group_by_condition_nonempty in Hg. by destruct group. }
    rewrite Hrow in Hrow'. injection Hrow' as <-.
    exists group. rewrite Hc. rewrite Hgt in Hm, H1, Hn. rewrite length_fmap in H1, Hn.
    destruct (pooled_cases F cs (Reveal.cmp_std row)) as (Hp1 & Hp2).
    rewrite <-Hp in Hp1, Hp2. done.
Qed.

Lemma effect_size_conventions_witness :
  ∃ control_mean control_std rows,
    Reveal.analyze Samples.exact Samples.five_scores Samples.five_key
    = Some (Reveal.Compared control_mean control_std rows) ∧
    Reveal.condition <$> rows = ["greek_arete"].
Proof.
  destruct (effect_size_conventions Samples.exact Samples.five_scores Samples.five_key
              [Samples.score_of 2 2 2 2 2; Samples.score_of 2 2 3 2 3;
               Samples.score_of 3 3 3 2 3])
    as (cm & cs & rows & Han & _ & _ & _ & Hnames & _).
  - unfold Reveal.small, Samples.five_scores.
    repeat (apply Forall_cons; split; [by vm_compute|]). apply Forall_nil_2.
  - reflexivity.
  - exists cm, cs, rows. split; [done|]. rewrite Hnames. reflexivity.
Defined.

(** The figures of the specification: totals 10, 12, 14 against 15, 16. *)
Example mean_control : Reveal.mean [10; 12; 14]%Z = Some 12.
Proof. unfold Reveal.mean. simpl. f_equal. lra. Qed.

Example stdev_control : Reveal.stdev_or_zero [10; 12; 14]%Z = Some 2.
Proof.
  unfold Reveal.stdev_or_zero, Reveal.stdev, Reveal.mean. simpl. f_equal.
  replace ((10 + (12 + (14 + 0))) / (1 + 1 + 1)) with 12 by lra.
  replace (((10 - 12) * ((10 - 12) * 1) + ((12 - 12) * ((12 - 12) * 1)
            + ((14 - 12) * ((14 - 12) * 1) + 0))) / (1 + 1)) with (2 * 2) by lra.
  apply sqrt_square. lra.
Qed.

Example stdev_single x : Reveal.stdev_or_zero [x] = Some 0.
Proof. reflexivity. Qed.

Example diff_treatment :
  Reveal.diff <$> Reveal.compare Samples.exact 12 2 "greek_arete" [15; 16]%Z = Some 3.5.
Proof.
  unfold Reveal.compare, Reveal.fmean, Reveal.fstdev_or_zero, Reveal.fstdev,
    Reveal.variance, Reveal.mean. simpl.
  f_equal. lra.
Qed.

End Analyzer.

(** ** Sample runs *)

(** With the service out of reach every trial is recorded as a failure. *)
Example offline_run :
  let o := (run_experiment Samples.offline 2 "./results" "claude-sonnet-4-20250514" 0).1 in
  length (results_of o) = 20%nat ∧
  Forall (λ r, Conditioning.completion r = "" ∧ Conditioning.passed r = false ∧
               Conditioning.error r = Some "Generation error: Connection error.")
         (results_of o).
Proof. vm_compute. split; [done|]. repeat constructor. Qed.

(** In the calm world every trial passes and the summary is returned. *)
Example calm_run :
  let o := (run_experiment Samples.calm 1 "./results" "claude-sonnet-4-20250514" 0).1 in
  (total_trials <$> match returned o with Ok s => Some s | Raise _ => None end) = Some 10%nat ∧
  Forall (λ r, Conditioning.passed r = true ∧ Conditioning.completion r = "return number % 1.0")
         (results_of o).
Proof. vm_compute. split; [done|]. repeat constructor. Qed.

(** * More properties *)

(** ** Splitting text *)

Lemma append_nil_l s : "" +:+ s = s.
Proof. done. Qed.

Lemma append_cons c a b : String c a +:+ b = String c (a +:+ b).
Proof. done. Qed.

Lemma append_nil_r s : s +:+ "" = s.
Proof. induction s as [|c s IH]; [done|by rewrite append_cons, IH]. Qed.

Lemma append_assoc (a b c : string) : (a +:+ b) +:+ c = a +:+ b +:+ c.
Proof. induction a as [|x a IH]; [done|by rewrite !append_cons, IH]. Qed.

Lemma prefix_append sep b : String.prefix sep (sep +:+ b) = true.
Proof.
  induction sep as [|c sep IH]; [by destruct b|].
  rewrite append_cons. simpl. destruct (ascii_dec c c); [exact IH|congruence].
Qed.

Lemma split_go_nonempty sep skip cur s : split_go sep skip cur s ≠ [].
Proof.
  revert skip cur. induction s as [|c s IH]; intros skip cur; cbn [split_go]; [done|].
  destruct skip; [|apply IH]. destruct (String.prefix sep (String c s)); [done|apply IH].
Qed.

(** Passing the rest of a matched separator. *)
Lemma split_go_skip sep x b cur :
  split_go sep (String.length x) cur (x +:+ b) = split_go sep 0 cur b.
Proof.
  induction x as [|c x IH]; [done|]. rewrite append_cons.
  cbn [split_go String.length]. apply IH.
Qed.

Lemma split_go_absent sep cur s :
  contains sep s = false → split_go sep 0 cur s = [cur +:+ s].
Proof.
  revert cur. induction s as [|c s IH]; intros cur; cbn [contains split_go].
  - intros _. by rewrite append_nil_r.
  - intros [Hp Hc]%orb_false_elim. rewrite Hp, IH by done.
    by rewrite append_assoc, append_cons, append_nil_l.
Qed.

(** The separator found first right after [a]. *)
Lemma split_go_first sep a b cur :
  sep ≠ "" →
  (∀ a1 c a2, a = a1 +:+ String c a2 →
              String.prefix sep (String c a2 +:+ sep +:+ b) = false) →
  split_go sep 0 cur (a +:+ sep +:+ b) = (cur +:+ a) :: split_go sep 0 "" b.
Proof.
  intros Hsep. revert cur. induction a as [|c a IH]; intros cur Hfirst.
  - rewrite append_nil_r. destruct sep as [|c0 sep]; [done|].
    change ("" +:+ String c0 sep +:+ b) with (String c0 (sep +:+ b)).
    cbn [split_go].
    pose proof (prefix_append (String c0 sep) b) as Hp.
    change (String c0 sep +:+ b) with (String c0 (sep +:+ b)) in Hp. rewrite Hp.
    f_equal. cbn [String.length]. rewrite Nat.sub_1_r. simpl Nat.pred.
    apply split_go_skip.
  - change (String c a +:+ sep +:+ b) with (String c (a +:+ sep +:+ b)).
    cbn [split_go].
    pose proof (Hfirst "" c a eq_refl) as Hp.
    change (String c a +:+ sep +:+ b) with (String c (a +:+ sep +:+ b)) in Hp.
    rewrite Hp, IH.
    + by rewrite append_assoc, append_cons, append_nil_l.
    + intros a1 c' a2 ->. by apply (Hfirst (String c a1)).
Qed.

Lemma contains_append sep a b : contains sep (a +:+ sep +:+ b) = true.
Proof.
  induction a as [|c a IH].
  - rewrite append_nil_l. destruct (sep +:+ b) eqn:Hs; cbn [contains].
    + pose proof (prefix_append sep b) as Hp. rewrite Hs in Hp. by rewrite Hp.
    + pose proof (prefix_append sep b) as Hp. rewrite Hs in Hp. by rewrite Hp.
  - change (String c a +:+ sep +:+ b) with (String c (a +:+ sep +:+ b)).
    cbn [contains]. rewrite IH. apply orb_true_r.
Qed.

Lemma contains_split sep cur s :
  sep ≠ "" → contains sep s = true → 2 ≤ length (split_go sep 0 cur s).
Proof.
  intros Hsep. revert cur. induction s as [|c s IH]; intros cur.
  - simpl. destruct sep; [done|]. simpl. done.
  - cbn [contains split_go]. destruct (String.prefix sep (String c s)) eqn:Hp.
    + intros _.
      pose proof (split_go_nonempty sep (String.length sep - 1) "" s).
      destruct (split_go sep (String.length sep - 1) "" s); [done|simpl; lia].
    + rewrite orb_false_l. apply IH.
Qed.

(** A separator that starts with [c] is found nowhere in a text free of [c]. *)
Lemma prefix_head c sep c' s :
  String.prefix (String c sep) (String c' s) = true → c' = c.
Proof. simpl. by destruct (ascii_dec c c'). Qed.

Lemma free_of_first c sep a b :
  Text.free_of c a = true →
  ∀ a1 c' a2, a = a1 +:+ String c' a2 →
    String.prefix (String c sep) (String c' a2 +:+ String c sep +:+ b) = false.
Proof.
  intros Hfree a1 c' a2 ->.
  assert (c' ≠ c) as Hne.
  { induction a1 as [|x a1 IH]; simpl in Hfree.
    - apply andb_prop in Hfree as [Hx _]. apply negb_true_iff, Ascii.eqb_neq in Hx. done.
    - apply andb_prop in Hfree as [_ Hrest]. by apply IH. }
  destruct (String.prefix _ _) eqn:Hp; [|done].
  change (String c' a2 +:+ String c sep +:+ b)
    with (String c' (a2 +:+ String c sep +:+ b)) in Hp.
  by apply prefix_head in Hp.
Qed.

Lemma free_of_absent c sep s :
  Text.free_of c s = true → contains (String c sep) s = false.
Proof.
  induction s as [|c' s IH]; simpl; [done|].
  intros [Hc Hs]%andb_prop. rewrite IH by done. rewrite orb_false_r.
  apply negb_true_iff, Ascii.eqb_neq in Hc.
  destruct (ascii_dec c c'); [congruence|done].
Qed.

Lemma prefix_shorter sep x s :
  String.prefix (sep +:+ x) s = true → String.prefix sep s = true.
Proof.
  revert s. induction sep as [|c sep IH]; intros s; [by destruct s|].
  rewrite append_cons. destruct s as [|c' s]; [done|]. simpl.
  destruct (ascii_dec c c'); [apply IH|done].
Qed.

Lemma contains_shorter sep x s :
  contains (sep +:+ x) s = true → contains sep s = true.
Proof.
  induction s as [|c s IH]; cbn [contains].
  - rewrite !orb_false_r. apply prefix_shorter.
  - intros [Hp|Hc]%orb_prop.
    + by rewrite (prefix_shorter _ _ _ Hp).
    + rewrite IH by done. apply orb_true_r.
Qed.

(** Every piece of a split is a contiguous part of the text. *)
Lemma split_go_pieces sep s : ∀ skip cur piece,
  piece ∈ split_go sep skip cur s →
  (∃ x p a, s = x +:+ p +:+ a ∧ piece = cur +:+ p ∧ (skip = 0 → x = "")) ∨
  (∃ b a, s = b +:+ piece +:+ a).
Proof.
  induction s as [|c s IH]; intros skip cur piece; cbn [split_go].
  - intros ->%list_elem_of_singleton. left. exists "", "", "".
    split; [done|]. split; [by rewrite append_nil_r|done].
  - destruct skip as [|k].
    + destruct (String.prefix sep (String c s)).
      * intros [->|Hin]%elem_of_cons.
        { left. exists "", "", (String c s).
          split; [done|]. split; [by rewrite append_nil_r|done]. }
        right. destruct (IH _ _ _ Hin) as [(x & p & a & -> & -> & _)|(b & a & ->)].
        { exists (String c x), a. by rewrite append_nil_l. }
        { by exists (String c b), a. }
      * intros Hin. destruct (IH _ _ _ Hin) as [(x & p & a & -> & -> & Hx)|(b & a & ->)].
        { left. rewrite (Hx eq_refl). exists "", (String c p), a.
          by rewrite append_assoc. }
        { right. by exists (String c b), a. }
    + intros Hin. destruct (IH _ _ _ Hin) as [(x & p & a & -> & -> & _)|(b & a & ->)].
      * left. by exists (String c x), p, a.
      * right. by exists (String c b), a.
Qed.

Lemma split_pieces sep s piece :
  piece ∈ split sep s → ∃ b a, s = b +:+ piece +:+ a.
Proof.
  intros [(x & p & a & -> & -> & Hx)|H]%split_go_pieces; [|done].
  rewrite (Hx eq_refl). by exists "", a.
Qed.

Lemma index_elem_of {A} (l : list A) i x : index l i = Ok x → x ∈ l.
Proof.
  unfold index. destruct (l !! i) eqn:Hl; [|done]. intros [= <-].
  by eapply list_elem_of_lookup_2.
Qed.

Lemma fenced_Ok fence content :
  fence ≠ "" → contains fence content = true →
  ∃ code b a, fenced fence content = Ok code ∧ content = b +:+ code +:+ a.
Proof.
  intros Hfence Hc. unfold fenced.
  pose proof (contains_split fence "" content Hfence Hc) as Hlen. fold (split fence content) in Hlen.
  destruct (split fence content) as [|p0 [|p1 pieces]] eqn:Hs; simpl in Hlen; try lia.
  unfold index at 2. simpl.
  assert (p1 ∈ split fence content) as (b1 & a1 & Hp1)%split_pieces
    by (rewrite Hs; set_solver).
  pose proof (split_go_nonempty "```" 0 "" p1) as Hne. fold (split "```" p1) in Hne.
  destruct (split "```" p1) as [|code pieces'] eqn:Hs'; [done|].
  unfold index. simpl.
  assert (code ∈ split "```" p1) as (b2 & a2 & Hcode)%split_pieces
    by (rewrite Hs'; set_solver).
  exists code, (b1 +:+ b2), (a2 +:+ a1). split; [done|].
  rewrite Hp1, Hcode. by rewrite !append_assoc.
Qed.

Lemma extract_Ok content :
  ∃ code b a, extract content = Ok code ∧ content = b +:+ code +:+ a.
Proof.
  unfold extract. destruct (contains "```python" content) eqn:Hpy.
  { by apply fenced_Ok. }
  destruct (contains "```" content) eqn:Hf.
  { by apply fenced_Ok. }
  exists content, "", "". by rewrite append_nil_r.
Qed.

(** X1: [generate_completion] raises only what the service raises, or an index
    error when the reply has no content block; otherwise it returns the
    stripped form of a contiguous part of the first block: the extraction
    itself never fails. *)
Theorem generate_completion_outcomes w prompt condition model t :
  let reply := messages_create w t (request_of prompt condition model) in
  let outcome := (generate_completion w prompt condition model t).1 in
  match reply with
  | Raise e => outcome = Raise e
  | Ok [] => ∃ text, outcome = Raise {| exn_class := IndexError; exn_str := text |}
  | Ok (content :: _) =>
      ∃ code before after,
        outcome = Ok (strip code) ∧ content = before +:+ code +:+ after
  end.
Proof.
  intros reply outcome. subst outcome.
  unfold generate_completion, bindE, bind, event, ret. fold reply.
  destruct reply as [[|content more]|e]; simpl; [eauto|..|done].
  destruct (extract_Ok content) as (code & b & a & -> & Hc). eauto.
Qed.

Section Fences.
Context (w : World) (prompt : string) (condition : Condition) (model : string) (t : nat).
Context (content : string) (more : list string).
Hypothesis reply :
  messages_create w t (request_of prompt condition model) = Ok (content :: more).

Lemma completion_of code :
  extract content = Ok code →
  (generate_completion w prompt condition model t).1 = Ok (strip code).
Proof.
  intros He. unfold generate_completion, bindE, bind, event, ret.
  rewrite reply. simpl. by rewrite He.
Qed.

(** X2: A reply without any fence is returned whole, stripped. *)
Theorem unfenced_completion :
  contains "```" content = false →
  (generate_completion w prompt condition model t).1 = Ok (strip content).
Proof.
  intros Hf. apply completion_of. unfold extract. rewrite Hf.
  destruct (contains "```python" content) eqn:Hpy; [|done].
  apply (contains_shorter "```" "python") in Hpy. congruence.
Qed.

(** X3: A reply with one fence tagged python, closed by a fence, with no
    backtick before it or in the code: the completion is the code between
    the two fences, stripped. *)
Theorem tagged_fence_completion before code after :
  content = before +:+ "```python" +:+ code +:+ "```" +:+ after →
  Text.free_of "`" before = true → Text.free_of "`" code = true →
  contains "```python" (code +:+ "```" +:+ after) = false →
  (generate_completion w prompt condition model t).1 = Ok (strip code).
Proof.
  intros Hcontent Hb Hc Hsingle. apply completion_of. unfold extract, fenced.
  rewrite Hcontent, contains_append. unfold split.
  rewrite (split_go_first "```python" before) by (done || by apply free_of_first).
  rewrite (split_go_absent _ _ _ Hsingle). unfold index at 2. simpl.
  rewrite append_nil_l, (split_go_first "```" code) by (done || by apply free_of_first).
  done.
Qed.

(** X4: A reply without a python tag: the completion is the text between the
    first fence and the next one, stripped, whatever follows; a tag other
    than python stays in front of the code. *)
Theorem plain_fence_completion before code after :
  content = before +:+ "```" +:+ code +:+ "```" +:+ after →
  Text.free_of "`" before = true → Text.free_of "`" code = true →
  contains "```python" content = false →
  (generate_completion w prompt condition model t).1 = Ok (strip code).
Proof.
  intros Hcontent Hb Hc Hpy. apply completion_of. unfold extract, fenced.
  rewrite Hpy. rewrite Hcontent at 1. rewrite contains_append.
  rewrite Hcontent. unfold split.
  rewrite (split_go_first "```" before) by (done || by apply free_of_first).
  rewrite (split_go_first "```" code) by (done || by apply free_of_first).
  unfold index at 2. simpl.
  rewrite append_nil_l, (split_go_absent "```" "" code) by (by apply free_of_absent).
  done.
Qed.

End Fences.

(** ** strip *)

Lemma chars_cons c s :
  chars (String c s)
  = match chars s with
    | ch :: rest =>
        if starts_with_continuation ch then String c ch :: rest
        else String c "" :: ch :: rest
    | [] => [String c ""]
    end.
Proof. done. Qed.

Lemma chars_head c s : ∃ r rest, chars (String c s) = String c r :: rest.
Proof.
  rewrite chars_cons. destruct (chars s) as [|ch rest]; [eauto|].
  destruct (starts_with_continuation ch); eauto.
Qed.

Lemma chars_characters s : Text.characters (chars s).
Proof.
  induction s as [|c s [IH1 IH2]]; [by split|]. rewrite chars_cons.
  destruct (chars s) as [|ch rest]; [by split; repeat constructor|].
  apply Forall_cons in IH1 as [Hch Hrest]. cbn [tail] in IH2.
  destruct (starts_with_continuation ch) eqn:Hs.
  - split; [|done]. constructor; [|done].
    destruct ch as [|c' r']; [done|]. cbn in Hs, Hch |- *. by rewrite Hs, Hch.
  - split; [by repeat constructor|]. cbn [tail]. by constructor.
Qed.

Lemma chars_chunk c r s :
  Text.continuation_only r = true →
  match s with String c' _ => is_continuation c' = false | EmptyString => True end →
  chars (String c (r +:+ s)) = String c r :: chars s.
Proof.
  revert c. induction r as [|c' r IH]; intros c Hr Hs.
  - rewrite append_nil_l, chars_cons. destruct s as [|c' s]; [done|].
    destruct (chars_head c' s) as (r' & rest & Hch). rewrite Hch.
    cbn [starts_with_continuation]. by rewrite Hs.
  - cbn in Hr. apply andb_prop in Hr as [Hc' Hr].
    rewrite append_cons, chars_cons.
    rewrite (IH c' Hr Hs). cbn [starts_with_continuation]. by rewrite Hc'.
Qed.

Lemma chars_unchars l : Text.characters l → chars (unchars l) = l.
Proof.
  intros [Hall Htail]. induction l as [|ch l IH]; [done|].
  apply Forall_cons in Hall as [Hch Hall]. cbn [tail] in Htail.
  destruct ch as [|c r]; [done|]. cbn in Hch.
  cbn [unchars foldr]. fold (unchars l). rewrite append_cons.
  rewrite chars_chunk; [| done |].
  - f_equal. apply IH; [done|]. destruct l; [done|]. by apply Forall_cons in Htail as [_ ?].
  - destruct l as [|ch' l]; [done|]. apply Forall_cons in Htail as [Hch' _].
    destruct ch' as [|c' r']; [by apply Forall_cons in Hall as [? _]|].
    cbn [unchars foldr]. rewrite append_cons. done.
Qed.

Lemma characters_suffix k l : Text.characters (k ++ l) → Text.characters l.
Proof.
  intros [Hall Htail]. apply Forall_app in Hall as [_ Hall]. split; [done|].
  destruct k as [|ch k]; [done|]. cbn [app tail] in Htail.
  apply Forall_app in Htail as [_ Htail]. destruct l; [done|].
  by apply Forall_cons in Htail as [_ ?].
Qed.

Lemma characters_prefix l k : Text.characters (l ++ k) → Text.characters l.
Proof.
  intros [Hall Htail]. apply Forall_app in Hall as [Hall _]. split; [done|].
  destruct l as [|ch l]; [done|]. cbn [app tail] in Htail |- *.
  by apply Forall_app in Htail as [? _].
Qed.

Lemma lstrip_chars_suffix l : ∃ k, l = k ++ lstrip_chars l.
Proof.
  induction l as [|ch l [k IH]]; [by exists []|]. cbn [lstrip_chars].
  destruct (space_char ch); [|by exists []]. exists (ch :: k). by rewrite <-app_comm_cons, <-IH.
Qed.

Lemma lstrip_chars_head l :
  match lstrip_chars l with ch :: _ => space_char ch = false | [] => True end.
Proof.
  induction l as [|ch l IH]; [done|]. cbn [lstrip_chars].
  by destruct (space_char ch) eqn:Hs.
Qed.

Lemma lstrip_chars_fixed l :
  match l with ch :: _ => space_char ch = false | [] => True end → lstrip_chars l = l.
Proof. destruct l as [|ch l]; [done|]. cbn [lstrip_chars]. by intros ->. Qed.

Lemma rstrip_chars_prefix l : ∃ k, l = rstrip_chars l ++ k.
Proof.
  unfold rstrip_chars. destruct (lstrip_chars_suffix (reverse l)) as [k Hk].
  exists (reverse k). rewrite <-reverse_app, <-Hk. by rewrite reverse_involutive.
Qed.

Lemma strip_chars_fixed l :
  let m := rstrip_chars (lstrip_chars l) in
  lstrip_chars m = m ∧ rstrip_chars m = m.
Proof.
  intros m. split.
  - apply lstrip_chars_fixed. subst m.
    pose proof (lstrip_chars_head l) as Hhead.
    destruct (rstrip_chars_prefix (lstrip_chars l)) as [k Hk].
    destruct (rstrip_chars (lstrip_chars l)) as [|ch m]; [done|].
    rewrite Hk in Hhead. done.
  - subst m. unfold rstrip_chars. rewrite reverse_involutive. f_equal.
    apply lstrip_chars_fixed, lstrip_chars_head.
Qed.

Lemma strip_idemp s : strip (strip s) = strip s.
Proof.
  unfold strip. rewrite chars_unchars.
  - destruct (strip_chars_fixed (chars s)) as [-> ->]. done.
  - destruct (rstrip_chars_prefix (lstrip_chars (chars s))) as [k Hk].
    destruct (lstrip_chars_suffix (chars s)) as [k' Hk'].
    pose proof (chars_characters s) as Hc. rewrite Hk', Hk in Hc.
    by apply characters_suffix, characters_prefix in Hc.
Qed.

Lemma unfenced_completion_witness :
  (generate_completion (Rows.replying [Samples.nbsp +:+ " def f(): pass " +:+ Samples.nbsp])
     "def f():" Samples.control "m" 0).1 = Ok "def f(): pass".
Proof.
  apply (unfenced_completion
           (Rows.replying [Samples.nbsp +:+ " def f(): pass " +:+ Samples.nbsp]) "def f():"
           Samples.control "m" 0 (Samples.nbsp +:+ " def f(): pass " +:+ Samples.nbsp) []);
    reflexivity.
Defined.

Lemma tagged_fence_completion_witness :
  (generate_completion Samples.calm "def f():" Samples.control "m" 0).1
  = Ok "return number % 1.0".
Proof.
  apply (tagged_fence_completion Samples.calm "def f():" Samples.control "m" 0 _ []
           eq_refl ("Here it is:" +:+ nl) (nl +:+ "    return number % 1.0" +:+ nl) "");
    reflexivity.
Defined.

Lemma plain_fence_completion_witness :
  (generate_completion (Rows.replying ["```py" +:+ nl +:+ "return 1" +:+ nl +:+ "``` done"])
     "def f():" Samples.control "m" 0).1
  = Ok ("py" +:+ nl +:+ "return 1").
Proof.
  apply (plain_fence_completion
           (Rows.replying ["```py" +:+ nl +:+ "return 1" +:+ nl +:+ "``` done"])
           "def f():" Samples.control "m" 0 _ []
           eq_refl "" ("py" +:+ nl +:+ "return 1" +:+ nl) " done");
    reflexivity.
Defined.

(** ** What a results file holds *)

Lemma checked_verdict run :
  ((checked run).1 = true ↔ (checked run).2 = None) ∧
  ∀ msg, (checked run).2 = Some msg → len msg <= 500.
Proof.
  unfold checked. destruct run as [result|e].
  - destruct (returncode result =? 0)%Z; simpl; split; try done.
    intros msg [= <-]. apply len_slice_chars_to.
  - destruct (exn_class e); simpl; split; try done;
      intros msg [= <-]; try apply len_slice_chars_to. simpl. lia.
Qed.

Lemma check_correctness_Ok w prompt completion test entry_point timeout t verdict :
  (check_correctness w prompt completion test entry_point timeout t).1 = Ok verdict →
  ∃ run, verdict = checked run.
Proof.
  unfold check_correctness, bindE, bind, event, ret.
  destruct (write_temp w t _) as [temp_path|e]; [|done]. simpl.
  destruct (unlink w (S (S t)) temp_path) as [[]|e]; [|done]. simpl.
  intros [= <-]. eauto.
Qed.

Lemma generate_completion_stripped w prompt condition model t completion :
  (generate_completion w prompt condition model t).1 = Ok completion →
  strip completion = completion.
Proof.
  unfold generate_completion, bindE, bind, event, ret.
  destruct (messages_create w t _) as [[|content more]|e]; simpl; try done.
  destruct (extract_Ok content) as (code & _ & _ & -> & _).
  intros [= <-]. apply strip_idemp.
Qed.

Lemma attempt_Ok w problem condition model t cm ps er :
  (attempt w problem condition model t).1 = Ok (cm, ps, er) →
  strip cm = cm ∧ (ps = true ↔ er = None) ∧
  ∀ msg, er = Some msg → len msg <= 500.
Proof.
  unfold attempt. unfold bindE at 1. unfold bind at 1.
  pose proof (generate_completion_stripped w (prompt problem) condition model t) as Hgen.
  destruct (generate_completion w (prompt problem) condition model t) as [gen t1].
  simpl in Hgen. destruct gen as [completion|e]; [|done].
  assert (strip completion = completion) as Hstrip by (by apply Hgen).
  unfold bindE, bind, ret.
  destruct (check_correctness w (prompt problem) completion (test problem)
              (entry_point problem) 5 t1) as [chk t2] eqn:Hchk.
  destruct chk as [verdict|e]; [|done]. simpl. intros [= <- <- <-].
  split; [done|].
  destruct (check_correctness_Ok w (prompt problem) completion (test problem)
              (entry_point problem) 5 t1 verdict) as [run ->].
  { by rewrite Hchk. }
  apply checked_verdict.
Qed.

Lemma each_trial_rows_in w problems model P t trials rows :
  Batch.each_trial w problems model P t trials rows →
  Forall (λ row, ∃ t trial, trial ∈ trials ∧ P t trial row) rows.
Proof.
  induction 1 as [|t trial row trials rows Hrow _ IH]; constructor.
  - exists t, trial. split; [by left|done].
  - eapply Forall_impl; [exact IH|]. intros row' (t' & trial' & Hin & HP).
    exists t', trial'. split; [by right|done].
Qed.

(** X5: Every result of a results file names a loaded problem and one of the
    conditions, holds a completion with no white space around it, passed
    exactly when it carries no error, and an error of at most 500
    characters unless it is the "Generation error: " of a trial that
    raised, whose completion is empty. *)
Theorem results_well_formed w problems conditions n output_dir model t :
  let o := (run_experiment_with w problems conditions n output_dir model t).1 in
  Forall (λ r,
    problem_id r ∈ keys problems ∧
    condition r ∈ name <$> conditions ∧
    strip (completion r) = completion r ∧
    (passed r = true ↔ error r = None) ∧
    ∀ msg, error r = Some msg →
      len msg <= 500 ∨
      ∃ text, msg = "Generation error: " +:+ text ∧ completion r = "")
    (results_of o).
Proof.
  intros o. subst o.
  destruct (run_experiment_with_rows w problems conditions n output_dir model t)
    as (rows & t' & Hrows & ->).
  unfold results_of. simpl. apply Forall_fmap.
  apply each_trial_rows_in in Hrows.
  eapply Forall_impl; [exact Hrows|]. clear Hrows.
  intros row (t0 & trial & Hin & (problem & Hp & Hr & _)%computed_inv).
  rewrite shuffle_Permutation in Hin. apply all_trials_elem in Hin as (Hkey & Hcond & _).
  cbv zeta in Hr. simpl. rewrite Hr. simpl.
  split; [done|]. split; [by apply list_elem_of_fmap_2|].
  destruct (attempt w problem trial.2 model t0) as [tried t1] eqn:Hat. simpl.
  destruct tried as [[[cm ps] er]|e]; simpl.
  - destruct (attempt_Ok w problem trial.2 model t0 cm ps er) as (Hs & Hpe & Hlen).
    { by rewrite Hat. }
    split; [done|]. split; [done|]. intros msg Hmsg. left. by apply Hlen.
  - split; [done|]. split; [done|]. intros msg [= <-]. right. eauto.
Qed.

(** ** The blind file *)

(** X6: Whatever the blind ids, the blind file holds, up to order, exactly the
    blind rows of the results: each result without its condition, error and
    time stamp, with the prompt of its problem. *)
Theorem blind_rows_are_redacted w problems conditions n output_dir model t :
  let o := (run_experiment_with w problems conditions n output_dir model t).1 in
  blind_of o ≡ₚ Rows.redact problems <$> results_of o.
Proof.
  intros o.
  destruct (run_experiment_with_files w problems conditions n output_dir model t)
    as (rows & Hrows & _ & _ & _ & Hr & Hb & _).
  fold o in Hr, Hb. rewrite Hb, Hr. clear Hb Hr.
  assert (rows.*2 = Rows.redact problems <$> rows.*1) as ->; [|done].
  induction Hrows as [|row rows (t0 & trial & (problem & Hp & Hr & Hb)%computed_inv) _ IH];
    [done|].
  rewrite !fmap_cons, IH. f_equal. cbv zeta in Hr, Hb.
  rewrite Hb, Hr. unfold Rows.redact. simpl. by rewrite Hp.
Qed.

(** ** Pass rates *)

Lemma count_passed_le rs : count_passed rs ≤ length rs.
Proof. unfold count_passed. apply length_filter. Qed.

(** ** Loading the problems *)

Lemma keys_dict_set {V} (d : dict V) k v :
  keys (dict_set d k v) = if decide (k ∈ keys d) then keys d else keys d ++ [k].
Proof.
  unfold keys. induction d as [|[k0 v0] d IH].
  - destruct (decide (k ∈ [].*1)) as [Hin|]; [|done]. by apply elem_of_nil in Hin.
  - cbn [dict_set]. destruct (decide (k0 = k)) as [->|Hne].
    + rewrite !fmap_cons. cbn [fst]. destruct (decide (k ∈ k :: d.*1)) as [|Hn]; [done|].
      exfalso. apply Hn. by left.
    + rewrite !fmap_cons, IH. cbn [fst].
      destruct (decide (k ∈ d.*1)) as [Hin|Hnin];
        destruct (decide (k ∈ k0 :: d.*1)) as [Hin'|Hnin']; try done.
      * exfalso. apply Hnin'. by right.
      * apply elem_of_cons in Hin' as [?|?]; congruence.
Qed.

Lemma elem_of_keys {V} (d : dict V) k : k ∈ keys d ↔ is_Some (dict_get d k).
Proof.
  split; [apply dict_get_is_Some|].
  unfold keys. induction d as [|[k0 v0] d IH]; simpl; [by intros [? ?]|].
  destruct (decide (k0 = k)) as [->|Hne]; [by left|]. intros ?. right. auto.
Qed.

Lemma NoDup_keys_dict_set {V} (d : dict V) k v :
  NoDup (keys d) → NoDup (keys (dict_set d k v)).
Proof.
  intros Hd. rewrite keys_dict_set. case_decide; [done|].
  apply NoDup_app. split; [done|]. split; [|apply NoDup_singleton].
  intros x Hx ->%list_elem_of_singleton. done.
Qed.

Lemma load_snoc ds item ids :
  load_humaneval_problems (ds ++ [item]) ids
  = if decide (task_id item ∈ ids)
    then dict_set (load_humaneval_problems ds ids) (task_id item) (item_problem item)
    else load_humaneval_problems ds ids.
Proof. unfold load_humaneval_problems. by rewrite foldl_app. Qed.

Lemma load_lookup ds ids k :
  dict_get (load_humaneval_problems ds ids) k
  = if decide (k ∈ ids)
    then item_problem <$> last (filter (λ item, task_id item = k) ds)
    else None.
Proof.
  induction ds as [|item ds IH] using rev_ind.
  - by case_decide.
  - rewrite load_snoc, filter_app.
    destruct (decide (task_id item = k)) as [<-|Hne].
    + rewrite filter_cons_True, filter_nil, last_snoc by done.
      case_decide; [|done]. rewrite dict_get_set. by rewrite decide_True.
    + rewrite filter_cons_False, filter_nil, app_nil_r by done.
      destruct (decide (task_id item ∈ ids)); [|done].
      rewrite dict_get_set. by rewrite decide_False.
Qed.

Lemma load_keys ds ids :
  NoDup (keys (load_humaneval_problems ds ids)) ∧
  ∀ k, k ∈ keys (load_humaneval_problems ds ids) ↔ k ∈ ids ∧ k ∈ task_id <$> ds.
Proof.
  split.
  - induction ds as [|item ds IH] using rev_ind; [constructor|].
    rewrite load_snoc. case_decide; [by apply NoDup_keys_dict_set|done].
  - intros k. rewrite elem_of_keys, load_lookup.
    case_decide as Hk; [|split; [by intros [? ?]|by intros [? _]]].
    rewrite fmap_is_Some. split.
    + intros [item Hlast]. split; [done|].
      apply last_Some_elem_of, list_elem_of_filter in Hlast as [<- Hin].
      by apply list_elem_of_fmap_2.
    + intros [_ (item & -> & Hin)%list_elem_of_fmap].
      destruct (last (filter (λ item0, task_id item0 = task_id item) ds)) eqn:Hl; [eauto|].
      apply last_None in Hl.
      assert (item ∈ filter (λ item0, task_id item0 = task_id item) ds) as Hf
        by (by apply list_elem_of_filter).
      rewrite Hl in Hf. by apply elem_of_nil in Hf.
Qed.

(** X8: The loaded problems: their keys are pairwise distinct and are exactly
    the ids asked for that the benchmark holds, and the problem under a key
    is the one of the last record of the benchmark with that id. *)
Theorem loaded_problems ds ids :
  let problems := load_humaneval_problems ds ids in
  NoDup (keys problems) ∧
  (∀ k, k ∈ keys problems ↔ k ∈ ids ∧ k ∈ task_id <$> ds) ∧
  (∀ k, k ∈ ids →
        dict_get problems k
        = item_problem <$> last (filter (λ item, task_id item = k) ds)) ∧
  (∀ k, k ∉ ids → dict_get problems k = None).
Proof.
  intros problems. destruct (load_keys ds ids) as [Hnd Hkeys].
  split; [done|]. split; [done|]. split.
  - intros k Hk. subst problems. rewrite load_lookup. by rewrite decide_True.
  - intros k Hk. subst problems. rewrite load_lookup. by rewrite decide_False.
Qed.

(** ** The pass-rate tables of a run *)

Lemma length_filter_fmap {A B} (f : A → B) (P : B → Prop)
    `{∀ y, Decision (P y)} `{∀ x, Decision (P (f x))} (l : list A) :
  length (filter P (f <$> l)) = length (filter (λ x, P (f x)) l).
Proof.
  induction l as [|x l IH]; [done|]. rewrite fmap_cons.
  destruct (decide (P (f x))).
  - rewrite !filter_cons_True by done. simpl. by rewrite IH.
  - by rewrite !filter_cons_False.
Qed.

Lemma filter_repeated {A B} (P : B → Prop) `{∀ y, Decision (P y)} (l : list A) (x : B) :
  length (filter P (l ≫= λ _, [x])) = if decide (P x) then length l else 0.
Proof.
  induction l as [|a l IH]; [by case_decide|].
  rewrite bind_cons, filter_app, length_app, IH.
  destruct (decide (P x)).
  - by rewrite filter_cons_True.
  - by rewrite filter_cons_False.
Qed.

Lemma length_filter_bind_if {A B} (P : B → Prop) `{∀ y, Decision (P y)}
    (Q : A → Prop) `{∀ x, Decision (Q x)} (f : A → list B) (l : list A) m :
  (∀ x, length (filter P (f x)) = if decide (Q x) then m else 0) →
  length (filter P (l ≫= f)) = length (filter Q l) * m.
Proof.
  intros Hf. induction l as [|x l IH]; [done|].
  rewrite bind_cons, filter_app, length_app, IH, Hf.
  destruct (decide (Q x)).
  - rewrite filter_cons_True by done. simpl. lia.
  - by rewrite filter_cons_False.
Qed.

Lemma length_filter_bind_const {A B} (P : B → Prop) `{∀ y, Decision (P y)}
    (f : A → list B) (l : list A) m :
  (∀ x, length (filter P (f x)) = m) →
  length (filter P (l ≫= f)) = length l * m.
Proof.
  intros Hf. induction l as [|x l IH]; [done|].
  rewrite bind_cons, filter_app, length_app, IH, Hf. simpl. lia.
Qed.

Lemma count_condition problems conditions n nm :
  length (filter (λ trial : Trial, name trial.2 = nm) (all_trials problems conditions n))
  = length problems * length (filter (λ c, name c = nm) conditions) * Z.to_nat n.
Proof.
  unfold all_trials, keys.
  rewrite (length_filter_bind_const _ _ _
             (length (filter (λ c, name c = nm) conditions) * Z.to_nat n)).
  - rewrite length_fmap. lia.
  - intros pid. apply (length_filter_bind_if _ (λ c, name c = nm)).
    intros c. by rewrite filter_repeated, length_seqZ.
Qed.

Lemma count_problem problems conditions n pid :
  length (filter (λ trial : Trial, trial.1 = pid) (all_trials problems conditions n))
  = length (filter (λ k, k = pid) (keys problems)) * length conditions * Z.to_nat n.
Proof.
  unfold all_trials.
  rewrite (length_filter_bind_if _ (λ k, k = pid) _ _ (length conditions * Z.to_nat n)).
  - lia.
  - intros k. destruct (decide (k = pid)) as [->|Hne].
    + apply length_filter_bind_const. intros c.
      rewrite filter_repeated, length_seqZ. by rewrite decide_True.
    + rewrite (length_filter_bind_const _ _ _ 0); [lia|]. intros c.
      rewrite filter_repeated. by rewrite decide_False.
Qed.

Lemma once_NoDup {A B} `{EqDecision B} (f : A → B) (l : list A) x :
  NoDup (f <$> l) → x ∈ l → length (filter (λ y, f y = f x) l) = 1.
Proof.
  intros Hnd Hx. etrans; [symmetry; apply (length_filter_fmap f (λ y, y = f x))|].
  apply (occurrences_NoDup (f x) (f <$> l)); [done|by apply list_elem_of_fmap_2].
Qed.

Lemma filter_all {A} (P : A → Prop) `{∀ x, Decision (P x)} (l : list A) :
  (∀ x, P x) → filter P l = l.
Proof.
  intros HP. induction l as [|x l IH]; [done|]. by rewrite filter_cons_True, IH.
Qed.

Section Tables.
Context (w : World) (problems : dict Problem) (conditions : list Condition)
        (n : Z) (output_dir model : string) (t : nat).

Let o := (run_experiment_with w problems conditions n output_dir model t).1.

Lemma results_count (P : string * string → Prop) `{∀ x, Decision (P x)} :
  length (filter (λ r, P (problem_id r, condition r)) (results_of o))
  = length (filter (λ trial : Trial, P (trial.1, name trial.2))
              (all_trials problems conditions n)).
Proof.
  subst o.
  destruct (run_experiment_with_rows w problems conditions n output_dir model t)
    as (rows & t' & Hrows & ->).
  unfold results_of. cbn [results_file fmap option_fmap option_map default snd].
  apply each_trial_labels in Hrows.
  transitivity (length (filter P ((λ r, (problem_id r, condition r)) <$> rows.*1)));
    [symmetry; apply length_filter_fmap|].
  rewrite Hrows.
  etrans; [apply (length_filter_fmap (λ trial : Trial, (trial.1, name trial.2)) P)|].
  by rewrite shuffle_Permutation.
Qed.

(** With distinct problem ids and distinct condition names the design is
    balanced: the table by condition has one line per condition, each over
    [|problems| * n] results, and the table by problem one line per problem,
    each over [|conditions| * n] results. *)
Lemma tables_balanced :
  NoDup (keys problems) → NoDup (name <$> conditions) →
  label <$> by_condition o = name <$> conditions ∧
  label <$> by_problem o = keys problems ∧
  Forall (λ line, line_total line = length problems * Z.to_nat n) (by_condition o) ∧
  Forall (λ line, line_total line = length conditions * Z.to_nat n) (by_problem o).
Proof.
  intros Hk Hc.
  destruct (run_experiment_with_files w problems conditions n output_dir model t)
    as (rows & _ & _ & _ & _ & Hr & _ & _ & Hbc & Hbp & _).
  fold o in Hr, Hbc, Hbp. rewrite Hbc, Hbp, <-Hr.
  unfold condition_lines, problem_lines.
  split; [rewrite <-list_fmap_compose; reflexivity|].
  split; [rewrite <-list_fmap_compose; unfold keys; by rewrite list_fmap_id|].
  split.
  - apply Forall_fmap, Forall_forall. intros c Hin.
    unfold compose. cbn [line_total rate_line].
    pose proof (results_count (λ lab, lab.2 = name c)) as Hcnt. cbn [snd] in Hcnt.
    rewrite Hcnt, count_condition, (once_NoDup name) by done. lia.
  - apply Forall_fmap, Forall_forall. intros pid Hin.
    unfold compose. cbn [line_total rate_line].
    pose proof (results_count (λ lab, lab.1 = pid)) as Hcnt. cbn [fst] in Hcnt.
    rewrite Hcnt, count_problem.
    pose proof (occurrences_NoDup pid (keys problems) Hk Hin) as Hone.
    unfold Worded.occurrences in Hone. rewrite Hone. lia.
Qed.

(** With at least one trial to run, [run_experiment_with] returns a
    summary. *)
Lemma summary_returned :
  (0 < n)%Z → problems ≠ [] → conditions ≠ [] →
  ∃ s, returned o = Ok s ∧
       summary_results s = results_of o ∧
       total_trials s = length (results_of o) ∧
       Z.of_nat (total_trials s)
       = (Z.of_nat (length problems) * Z.of_nat (length conditions) * n)%Z ∧
       (0 <= overall_pass_rate s)%Q ∧ (overall_pass_rate s <= 1)%Q.
Proof.
  intros Hn Hp Hc.
  pose proof (results_count (λ _, True)) as Hcount.
  rewrite !filter_all in Hcount by done.
  rewrite length_all_trials in Hcount.
  destruct (run_experiment_with_files w problems conditions n output_dir model t)
    as (rows & _ & _ & _ & _ & Hr & _ & _ & _ & _ & Hret).
  fold o in Hr, Hret. rewrite Hret, <-Hr. unfold summary.
  destruct (length (results_of o)) as [|k] eqn:Hlen.
  { exfalso. destruct problems, conditions; try done. simpl in Hcount. nia. }
  eexists. split; [done|]. cbn [summary_results total_trials overall_pass_rate].
  split; [done|]. split; [done|]. split; [lia|].
  pose proof (count_passed_le (results_of o)) as Hle. rewrite Hlen in Hle.
  assert (Z.pos (Pos.of_nat (S k)) = Z.of_nat (S k)) as Hpos.
  { rewrite <-Pos.of_nat_succ. lia. }
  split.
  - unfold Qle. cbn [Qnum Qden]. lia.
  - unfold Qle. cbn [Qnum Qden]. rewrite Hpos. lia.
Qed.

End Tables.

Lemma NoDup_condition_names : NoDup (name <$> CONDITIONS).
Proof. refine (bool_decide_unpack _ _). vm_compute. exact I. Qed.

(** X10: [run_experiment] itself, on any benchmark: at most five problems are
    loaded, [|loaded| * 5 * n] results are written, and the table by
    condition has the five conditions the analyzer lists, in its order,
    each over [|loaded| * n] results. *)
Theorem run_experiment_balanced w n output_dir model t :
  let loaded := load_humaneval_problems (dataset w) SELECTED_PROBLEMS in
  let o := (run_experiment w n output_dir model t).1 in
  length loaded ≤ 5 ∧
  length (results_of o) = length loaded * 5 * Z.to_nat n ∧
  label <$> by_condition o = RevealTables.condition_order ∧
  Forall (λ line, line_total line = length loaded * Z.to_nat n) (by_condition o) ∧
  Forall (λ line, line_total line = 5 * Z.to_nat n) (by_problem o).
Proof.
  intros loaded o.
  destruct (load_keys (dataset w) SELECTED_PROBLEMS) as [Hnd Hkeys].
  fold loaded in Hnd, Hkeys.
  destruct (tables_balanced w loaded CONDITIONS n output_dir model t Hnd
              NoDup_condition_names) as (Hlc & _ & Hbc & Hbp).
  split.
  { assert (keys loaded ⊆+ SELECTED_PROBLEMS) as Hsub.
    { apply NoDup_submseteq; [done|]. intros k Hk. by apply Hkeys in Hk as [? _]. }
    apply submseteq_length in Hsub. unfold keys in Hsub. rewrite length_fmap in Hsub.
    exact Hsub. }
  split.
  { pose proof (results_count w loaded CONDITIONS n output_dir model t (λ _, True)) as Hc.
    rewrite !filter_all, length_all_trials in Hc by done. exact Hc. }
  split; [exact Hlc|]. split; [exact Hbc|exact Hbp].
Qed.

(** X9: When the client of the service, the output directory, the
    benchmark and the three files raise nothing, a call with at least one
    trial per condition and a benchmark that holds one of the selected
    problems returns a summary instead of dividing by zero: its results are
    those of the results file, their number is [|loaded| * 5 * n], and the
    overall pass rate lies between 0 and 1. *)
Theorem run_returns_summary h w n output_dir model t ds :
  Script.obliging h output_dir ds →
  (0 < n)%Z →
  load_humaneval_problems ds SELECTED_PROBLEMS ≠ [] →
  let o := (Script.run_experiment h w n output_dir model t).1 in
  ∃ s, returned o = Ok s ∧
       summary_results s = results_of o ∧
       total_trials s = length (results_of o) ∧
       Z.of_nat (total_trials s)
       = (Z.of_nat (length (load_humaneval_problems ds SELECTED_PROBLEMS)) * 5 * n)%Z ∧
       (0 <= overall_pass_rate s)%Q ∧ (overall_pass_rate s <= 1)%Q.
Proof.
  intros Hhost Hn Hloaded o. subst o.
  rewrite (script_obliging h w n output_dir model t ds Hhost).
  by apply summary_returned.
Qed.

Lemma run_returns_summary_witness :
  ∃ s, returned (Script.run_experiment Samples.ready Samples.calm 2 "./results" "m" 0).1
       = Ok s.
Proof.
  destruct (run_returns_summary Samples.ready Samples.calm 2 "./results" "m" 0
              Samples.benchmark) as (s & Hs & _); [repeat split|lia|done|].
  by exists s.
Defined.

(** ** The files of a call *)

(** The trials themselves never make the call raise. *)
Lemma run_trials_returns w problems conditions n model t e :
  let order := shuffle (randbelow w) (all_trials problems conditions n) t in
  (run_trials w problems model order.1 [] [] order.2).1 ≠ Raise e.
Proof.
  intros order He.
  destruct (run_experiment_with_rows w problems conditions n "" model t)
    as (rows & t' & _ & Heq).
  unfold run_experiment_with, bind in Heq. fold order in Heq.
  destruct order as [trials t0]. cbn [fst snd] in He.
  destruct (run_trials w problems model trials [] [] t0) as [ran t1].
  cbn [fst] in He. subst ran. discriminate Heq.
Qed.

(** X26: The call writes its files in the order results file, blind file,
    key file: a later one is never there without the earlier ones.  A call
    that does not write its key file prints no table and raises an
    exception that comes from the client of the service, the creation of
    the output directory, the load of the benchmark or one of the three
    writes; a call that writes it prints the five condition lines. *)
Theorem files_written_in_order h w n output_dir model t :
  let o := (Script.run_experiment h w n output_dir model t).1 in
  (is_Some (key_file o) → is_Some (blind_eval_file o)) ∧
  (is_Some (blind_eval_file o) → is_Some (results_file o)) ∧
  (key_file o = None →
   by_condition o = [] ∧ by_problem o = [] ∧
   ∃ e, returned o = Raise e ∧
        (anthropic_client h = Raise e ∨ mkdir h output_dir = Raise e ∨
         load_dataset h = Raise e ∨ ∃ path, open_write h path = Raise e)) ∧
  (is_Some (key_file o) → label <$> by_condition o = name <$> CONDITIONS).
Proof.
  intros o. subst o. unfold Script.run_experiment.
  destruct (anthropic_client h) as [[]|e] eqn:Hclient.
  2:{ cbn. split; [by intros [? ?]|]. split; [by intros [? ?]|].
      split; [|by intros [? ?]]. intros _. eauto 10. }
  destruct (mkdir h output_dir) as [[]|e] eqn:Hdir.
  2:{ cbn. split; [by intros [? ?]|]. split; [by intros [? ?]|].
      split; [|by intros [? ?]]. intros _. eauto 10. }
  destruct (load_dataset h) as [ds|e] eqn:Hload.
  2:{ cbn. split; [by intros [? ?]|]. split; [by intros [? ?]|].
      split; [|by intros [? ?]]. intros _. eauto 10. }
  unfold bind, event, ret.
  pose proof (λ e, run_trials_returns w (load_humaneval_problems ds SELECTED_PROBLEMS)
                     CONDITIONS n model t e) as Hran.
  cbv zeta in Hran.
  destruct (shuffle _ _ t) as [trials t0]. cbn [fst snd] in Hran.
  destruct (run_trials _ _ _ trials [] [] t0) as [[[results blind]|e] t1];
    [|by destruct (Hran e)].
  cbn [fst]. destruct (open_write h _) as [[]|e] eqn:Hw1.
  2:{ cbn. split; [by intros [? ?]|]. split; [by intros [? ?]|].
      split; [|by intros [? ?]]. intros _. eauto 10. }
  destruct (open_write h (_ +:+ "/blind_eval_" +:+ _)) as [[]|e] eqn:Hw2.
  2:{ cbn. split; [by intros [? ?]|]. split; [by intros [? ?]|].
      split; [|by intros [? ?]]. intros _. eauto 10. }
  destruct (shuffle _ blind (S t1)) as [shuffled t2].
  destruct (open_write h (_ +:+ "/key_" +:+ _)) as [[]|e] eqn:Hw3.
  2:{ cbn. split; [by intros [? ?]|]. split; [eauto|].
      split; [|by intros [? ?]]. intros _. eauto 10. }
  cbn. split; [eauto|]. split; [eauto|]. split; [done|]. by intros _.
Qed.

(** ** Replacing text, and the name of the score file *)

Lemma length_append a b : String.length (a +:+ b) = String.length a + String.length b.
Proof.
  induction a as [|c a IH]; [done|]. rewrite append_cons. cbn [String.length]. by rewrite IH.
Qed.

Lemma prefix_fits p u v :
  String.length p ≤ String.length u → String.prefix p (u +:+ v) = String.prefix p u.
Proof.
  revert u. induction p as [|c p IH]; intros u Hlen.
  - cbn [String.prefix]. by destruct u, (_ +:+ v).
  - destruct u as [|c' u]; [cbn [String.length] in Hlen; lia|].
    rewrite append_cons. cbn [String.prefix].
    destruct (ascii_dec c c'); [|done]. apply IH. cbn [String.length] in Hlen. lia.
Qed.

Lemma contains_suffix sep a s :
  contains sep (a +:+ s) = false → contains sep s = false.
Proof.
  induction a as [|c a IH]; [done|]. rewrite append_cons. cbn [contains].
  intros [_ H]%orb_false_elim. auto.
Qed.

Lemma contains_prefix_false sep s : contains sep s = false → String.prefix sep s = false.
Proof. destruct s; cbn [contains]; by intros [? _]%orb_false_elim. Qed.

Lemma first_of_window sep' l a b :
  contains (sep' +:+ String l "") (a +:+ sep') = false →
  ∀ a1 c a2, a = a1 +:+ String c a2 →
    String.prefix (sep' +:+ String l "")
                  (String c a2 +:+ (sep' +:+ String l "") +:+ b) = false.
Proof.
  intros Hwin a1 c a2 ->. rewrite append_assoc in Hwin.
  apply contains_suffix, contains_prefix_false in Hwin.
  rewrite <-(prefix_fits _ (String c a2 +:+ sep') (String l "" +:+ b)) in Hwin.
  - by rewrite !append_assoc in Hwin |- *.
  - rewrite !length_append. cbn [String.length]. lia.
Qed.


Lemma replace_once old' l new a b :
  let old := old' +:+ String l "" in
  contains old (a +:+ old') = false → contains old b = false →
  Text.replace old new (a +:+ old +:+ b) = a +:+ new +:+ b.
Proof.
  intros old Ha Hb. unfold Text.replace, split.
  assert (old ≠ "") as Hne by (subst old; by destruct old').
  rewrite (split_go_first old a b "" Hne) by (by apply first_of_window).
  by rewrite split_go_absent.
Qed.




(** X12: The three files of a run share one time stamp in their names, and when
    neither the directory (followed by "/blind_eval") nor a time stamp
    (followed by ".json") contains "blind_eval_", the score file derived
    from the blind file of the run is the file scores_<time stamp>.json of
    the same directory. *)
Theorem output_file_of_run w problems conditions n output_dir model t :
  contains "blind_eval_" (output_dir +:+ "/blind_eval") = false →
  (∀ t', contains "blind_eval_" (strftime (now w t') +:+ ".json") = false) →
  let o := (run_experiment_with w problems conditions n output_dir model t).1 in
  ∃ timestamp,
    fst <$> results_file o = Some (output_dir +:+ "/results_" +:+ timestamp +:+ ".json") ∧
    fst <$> blind_eval_file o
    = Some (output_dir +:+ "/blind_eval_" +:+ timestamp +:+ ".json") ∧
    fst <$> key_file o = Some (output_dir +:+ "/key_" +:+ timestamp +:+ ".json") ∧
    QualityMain.output_file <$> (fst <$> blind_eval_file o)
    = Some (output_dir +:+ "/scores_" +:+ timestamp +:+ ".json").
Proof.
  intros Hdir Hts o. subst o.
  destruct (run_experiment_with_rows w problems conditions n output_dir model t)
    as (rows & t' & _ & ->).
  exists (strftime (now w t')). cbn [results_file blind_eval_file key_file fmap option_fmap option_map fst].
  repeat (split; [done|]). f_equal. unfold QualityMain.output_file.
  pose proof (replace_once "blind_eval" "_" "scores_" (output_dir +:+ "/")
                (strftime (now w t') +:+ ".json")) as Hrep.
  cbv zeta in Hrep. rewrite !append_assoc in Hrep.
  apply Hrep; [exact Hdir|apply Hts].
Qed.


Lemma output_file_of_run_witness :
  ∃ timestamp,
    QualityMain.output_file <$>
      (fst <$> blind_eval_file
         (run_experiment_with Samples.calm Samples.two_problems CONDITIONS 1
            "./results" "m" 0).1)
    = Some ("./results" +:+ "/scores_" +:+ timestamp +:+ ".json").
Proof.
  destruct (output_file_of_run Samples.calm Samples.two_problems CONDITIONS 1
              "./results" "m" 0) as (timestamp & _ & _ & _ & H).
  - reflexivity.
  - intros t'. reflexivity.
  - by exists timestamp.
Defined.

(** ** More on the scoring session *)

Lemma score_line_read p0 p1 p2 p3 p4 :
  (1 ≤ p0 ≤ 5)%Z → (1 ≤ p1 ≤ 5)%Z → (1 ≤ p2 ≤ 5)%Z → (1 ≤ p3 ≤ 5)%Z → (1 ≤ p4 ≤ 5)%Z →
  read_scores (lower (strip (Text.score_line p0 p1 p2 p3 p4)))
  = inl {| edge_cases := p0; error_handling := p1; idiomaticity := p2;
           documentation := p3; ship_it := p4; total := p0 + p1 + p2 + p3 + p4 |}.
Proof.
  intros H0 H1 H2 H3 H4.
  assert (p0 = 1 ∨ p0 = 2 ∨ p0 = 3 ∨ p0 = 4 ∨ p0 = 5)%Z as C0 by lia.
  assert (p1 = 1 ∨ p1 = 2 ∨ p1 = 3 ∨ p1 = 4 ∨ p1 = 5)%Z as C1 by lia.
  assert (p2 = 1 ∨ p2 = 2 ∨ p2 = 3 ∨ p2 = 4 ∨ p2 = 5)%Z as C2 by lia.
  assert (p3 = 1 ∨ p3 = 2 ∨ p3 = 3 ∨ p3 = 4 ∨ p3 = 5)%Z as C3 by lia.
  assert (p4 = 1 ∨ p4 = 2 ∨ p4 = 3 ∨ p4 = 4 ∨ p4 = 5)%Z as C4 by lia.
  clear H0 H1 H2 H3 H4.
  destruct C0 as [->|[->|[->|[->| ->]]]], C1 as [->|[->|[->|[->| ->]]]],
    C2 as [->|[->|[->|[->| ->]]]], C3 as [->|[->|[->|[->| ->]]]],
    C4 as [->|[->|[->|[->| ->]]]]; vm_compute; reflexivity.
Qed.

(** X13: A line of five scores in range is accepted as typed. *)
Theorem typed_scores_recorded p0 p1 p2 p3 p4 rest :
  (1 ≤ p0 ≤ 5)%Z → (1 ≤ p1 ≤ 5)%Z → (1 ≤ p2 ≤ 5)%Z → (1 ≤ p3 ≤ 5)%Z → (1 ≤ p4 ≤ 5)%Z →
  ask (Text.score_line p0 p1 p2 p3 p4 :: rest)
  = (Recorded {| edge_cases := p0; error_handling := p1; idiomaticity := p2;
                 documentation := p3; ship_it := p4;
                 total := p0 + p1 + p2 + p3 + p4 |},
     rest, [RecordedLine [p0; p1; p2; p3; p4] (p0 + p1 + p2 + p3 + p4)]).
Proof.
  intros H0 H1 H2 H3 H4. cbn [ask].
  rewrite (score_line_read p0 p1 p2 p3 p4) by done.
  assert (lower (strip (Text.score_line p0 p1 p2 p3 p4)) ≠ "q" ∧
          lower (strip (Text.score_line p0 p1 p2 p3 p4)) ≠ "s") as [Hq Hs].
  { pose proof (score_line_read p0 p1 p2 p3 p4 H0 H1 H2 H3 H4) as Hread.
    split; intros Heq; rewrite Heq in Hread; vm_compute in Hread; discriminate. }
  by rewrite !decide_False by done.
Qed.

Lemma typed_scores_recorded_witness :
  (ask ["3,2,4,3,3"; "q"]).1.2 = ["q"].
Proof.
  pose proof (typed_scores_recorded 3 2 4 3 3 ["q"]) as H.
  change (Text.score_line 3 2 4 3 3) with "3,2,4,3,3" in H.
  rewrite H by lia. reflexivity.
Defined.

(** ** How a session ends *)


Lemma ask_EndOfInput inputs :
  (ask inputs).1.1 = EndOfInput → (ask inputs).1.2 = [] ∧ Forall Worded.rejected inputs.
Proof.
  induction inputs as [|line inputs IH]; [done|]. cbn [ask].
  destruct (decide (lower (strip line) = "q")) as [|Hq]; [done|].
  destruct (decide (lower (strip line) = "s")) as [|Hs]; [done|].
  destruct (read_scores (lower (strip line))) as [r|message] eqn:Hread; [done|].
  destruct (ask inputs) as [[answer inputs'] printed]. simpl in *. intros ->.
  destruct (IH eq_refl) as [-> Hall]. split; [done|]. constructor; [|done].
  apply read_scores_rejected. eauto.
Qed.









Lemma session_reach data : ∀ scores inputs shown final id r,
  written (session data scores inputs shown) = Some final ∨
  result (session data scores inputs shown) = Ok final →
  final !! id = Some r →
  scores !! id = Some r ∨
  (Shown id ∈ console (session data scores inputs shown) ∧ id ∈ Blind.blind_id <$> data).
Proof.
  assert (Hcons : ∀ data scores inputs shown x,
            x ∈ shown → x ∈ console (session data scores inputs shown)).
  { clear. induction data as [|item data IH]; intros scores inputs shown x Hx;
      cbn [session]; [done|].
    destruct (scores !! Blind.blind_id item);
      [apply IH, elem_of_app; by left|].
    destruct (ask inputs) as [[answer inputs'] printed].
    destruct answer; cbn zeta; try apply IH; simpl; apply elem_of_app; by left. }
  induction data as [|item data IH]; intros scores inputs shown final id r; cbn [session].
  - intros [[= <-]|[= <-]]; auto.
  - destruct (scores !! Blind.blind_id item) as [r0|] eqn:Hitem.
    { intros Hf Hr. destruct (IH _ _ _ _ _ _ Hf Hr) as [|[? ?]]; [by left|].
      right. split; [done|]. rewrite fmap_cons. by right. }
    destruct (ask inputs) as [[answer inputs'] printed].
    destruct answer as [| |r0|]; cbn zeta.
    + intros [[= <-]|[= <-]]; auto.
    + intros Hf Hr. destruct (IH _ _ _ _ _ _ Hf Hr) as [|[? ?]]; [by left|].
      right. split; [done|]. rewrite fmap_cons. by right.
    + intros Hf Hr. destruct (IH _ _ _ _ _ _ Hf Hr) as [Hin|[? ?]].
      * apply lookup_insert_Some in Hin as [[<- _]|[_ Hin]]; [|by left].
        right. split; [|rewrite fmap_cons; by left].
        apply Hcons, elem_of_app. right. by left.
      * right. split; [done|]. rewrite fmap_cons. by right.
    + intros [|]; done.
Qed.

(** X17: Every blind id in the scores written or returned was loaded from the
    score file or belongs to a sample of the blind file that was put on
    display: samples not reached are absent. *)
Theorem unreached_samples_absent data stored inputs final id :
  let s := evaluate_interactively data stored inputs in
  written s = Some final ∨ result s = Ok final →
  is_Some (final !! id) →
  is_Some (default ∅ stored !! id) ∨
  (Shown id ∈ console s ∧ id ∈ Blind.blind_id <$> data).
Proof.
  intros s Hf [r Hr]. destruct (session_reach _ _ _ _ _ _ _ Hf Hr) as [|]; eauto.
Qed.

Lemma unreached_samples_absent_witness :
  is_Some (default ∅ (Some Samples.one_scored) !! "abc123") ∨
  (Shown "abc123" ∈ console (evaluate_interactively Samples.two_samples
                               (Some Samples.one_scored) ["q"]) ∧
   "abc123" ∈ Blind.blind_id <$> Samples.two_samples).
Proof.
  apply (unreached_samples_absent Samples.two_samples (Some Samples.one_scored) ["q"]
           Samples.one_scored "abc123").
  - left. reflexivity.
  - vm_compute. eauto.
Defined.

(** ** The average printed by [main] *)





(** ** Grouping the scores *)

Lemma dict_get_append {V} (d : dict (list V)) k v k' :
  default [] (dict_get (dict_append d k v) k')
  = default [] (dict_get d k') ++ if decide (k = k') then [v] else [].
Proof.
  unfold dict_append. rewrite dict_get_set.
  destruct (decide (k = k')) as [->|]; [done|]. by rewrite app_nil_r.
Qed.

Lemma group_snoc scores item key :
  Reveal.group_by_condition (scores ++ [item]) key
  = match key !! item.1 with
    | Some condition =>
        if decide (condition = "") then Reveal.group_by_condition scores key
        else dict_append (Reveal.group_by_condition scores key) condition item.2
    | None => Reveal.group_by_condition scores key
    end.
Proof. unfold Reveal.group_by_condition. by rewrite foldl_app. Qed.

Lemma group_lookup (scores : list (string * Quality.ScoreRecord)) key c :
  default [] (dict_get (Reveal.group_by_condition scores key) c)
  = if decide (c = "") then []
    else snd <$> filter (λ item, key !! item.1 = Some c) scores.
Proof.
  induction scores as [|item scores IH] using rev_ind.
  - by case_decide.
  - rewrite group_snoc, filter_app, fmap_app.
    destruct (key !! item.1) as [condition|] eqn:Hkey.
    + destruct (decide (condition = "")) as [->|Hne].
      * rewrite IH. case_decide; [done|].
        rewrite filter_cons_False, filter_nil, app_nil_r by congruence. done.
      * rewrite dict_get_append, IH.
        destruct (decide (condition = c)) as [->|Hc].
        { rewrite !decide_False by done.
          by rewrite filter_cons_True, filter_nil by done. }
        { rewrite app_nil_r. case_decide; [done|].
          rewrite filter_cons_False, filter_nil, app_nil_r by congruence. done. }
    + rewrite IH. case_decide; [done|].
      rewrite filter_cons_False, filter_nil, app_nil_r by congruence. done.
Qed.


(** X19: The group of a condition holds, in the order of the score file, the
    scores of exactly the samples that the key gives to that condition;
    a condition is absent when no sample is, and the empty condition
    always. *)
Theorem groups_follow_key (scores : list (string * Quality.ScoreRecord)) key c :
  let scored := snd <$> filter (λ item, key !! item.1 = Some c) scores in
  dict_get (Reveal.group_by_condition scores key) c
  = match scored with
    | [] => None
    | _ => if decide (c = "") then None else Some scored
    end.
Proof.
  intros scored. pose proof (group_lookup scores key c) as Hl. fold scored in Hl.
  destruct (dict_get (Reveal.group_by_condition scores key) c) as [group|] eqn:Hg.
  - apply group_by_condition_nonempty in Hg. simpl in Hl.
    case_decide; [congruence|]. rewrite <-Hl. by destruct group.
  - simpl in Hl. case_decide; [by destruct scored|]. by rewrite <-Hl.
Qed.



(** ** From a run to the groups of the analyzer *)

Lemma run_conditions w problems conditions n output_dir model t :
  Forall (λ r, condition r ∈ name <$> conditions)
         (results_of (run_experiment_with w problems conditions n output_dir model t).1).
Proof.
  destruct (run_experiment_with_rows w problems conditions n output_dir model t)
    as (rows & t' & Hrows & ->).
  unfold results_of. simpl. apply Forall_fmap.
  apply each_trial_rows_in in Hrows.
  eapply Forall_impl; [exact Hrows|]. clear Hrows.
  intros row (t0 & trial & Hin & (problem & Hp & Hr & _)%computed_inv).
  rewrite shuffle_Permutation in Hin. apply all_trials_elem in Hin as (_ & Hcond & _).
  cbv zeta in Hr. simpl. rewrite Hr. simpl. by apply list_elem_of_fmap_2.
Qed.

Lemma key_mapping_NoDup_Some rs id c :
  NoDup (blind_id <$> rs) →
  key_mapping rs !! id = Some c ↔ Exists (λ r, blind_id r = id ∧ condition r = c) rs.
Proof.
  intros Hnd. rewrite Exists_exists. split.
  - rewrite key_mapping_lookup.
    destruct (last (filter (λ r, blind_id r = id) rs)) as [r|] eqn:Hlast; [|done].
    intros [= <-]. apply last_Some_elem_of, list_elem_of_filter in Hlast as [Hid Hin].
    by exists r.
  - intros (r & Hin & <- & <-). by apply key_mapping_NoDup_lookup.
Qed.

(** X20: When the blind ids of a run are distinct and no condition has an empty
    name, the analyzer, given the key file of the run and any score file,
    puts in the group of a condition exactly the scores of the samples that
    were generated under that condition, in the order of the score file. *)
Theorem analyzer_rejoins_run w problems conditions n output_dir model t
    (scores : list (string * Quality.ScoreRecord)) c :
  let o := (run_experiment_with w problems conditions n output_dir model t).1 in
  NoDup (blind_id <$> results_of o) →
  "" ∉ name <$> conditions →
  default [] (dict_get (Reveal.group_by_condition scores (key_of o)) c)
  = snd <$> filter (λ item, Exists (λ r, blind_id r = item.1 ∧ condition r = c)
                                   (results_of o)) scores.
Proof.
  intros o Hnd Hnames. rewrite group_lookup.
  destruct (run_experiment_with_files w problems conditions n output_dir model t)
    as (rows & _ & _ & _ & _ & Hr & _ & Hk & _).
  fold o in Hr, Hk. rewrite Hk, <-Hr.
  pose proof (run_conditions w problems conditions n output_dir model t) as Hc.
  fold o in Hc. case_decide as Hempty.
  - subst c. rewrite filter_none; [done|]. apply Forall_forall. intros item _.
    rewrite Exists_exists. intros (r & Hin & _ & Hcond).
    rewrite Forall_forall in Hc. apply Hc in Hin. congruence.
  - f_equal. apply list_filter_iff. intros item. by apply key_mapping_NoDup_Some.
Qed.

Lemma analyzer_rejoins_run_witness :
  let o := (run_experiment_with Samples.calm Samples.two_problems CONDITIONS 1
              "./results" "m" 0).1 in
  default [] (dict_get (Reveal.group_by_condition
                          ((λ r, (blind_id r, Samples.abc123_score)) <$> results_of o)
                          (key_of o)) "control")
  = snd <$> filter (λ item, Exists (λ r, blind_id r = item.1 ∧ condition r = "control")
                                   (results_of o))
                   ((λ r, (blind_id r, Samples.abc123_score)) <$> results_of o).
Proof.
  apply (analyzer_rejoins_run Samples.calm Samples.two_problems CONDITIONS 1
           "./results" "m" 0).
  - refine (bool_decide_unpack _ _). vm_compute. exact I.
  - refine (bool_decide_unpack _ _). vm_compute. exact I.
Defined.

(** X21: The pass rates the analyzer computes from the results file of a run are
    the ones the run printed by condition: same conditions, same order, same
    counts and rates. *)
Theorem pass_rates_agree w n output_dir model t :
  let o := (run_experiment w n output_dir model t).1 in
  RevealTables.pass_rate_table (results_of o) = by_condition o.
Proof.
  intros o. unfold run_experiment in o.
  destruct (run_experiment_with_files w
              (load_humaneval_problems (dataset w) SELECTED_PROBLEMS) CONDITIONS
              n output_dir model t) as (rows & _ & _ & _ & _ & Hr & _ & _ & Hc & _).
  fold o in Hr, Hc. rewrite Hr, Hc. reflexivity.
Qed.

(** ** The first table of the analyzer *)

Section FirstTable.
Local Open Scope R_scope.

Lemma present_groups_spec by_condition names :
  Forall (λ g : string * list Quality.ScoreRecord, dict_get by_condition g.1 = Some g.2)
         (RevealTables.present_groups by_condition names) ∧
  (RevealTables.present_groups by_condition names).*1
  = filter (λ c, is_Some (dict_get by_condition c)) names.
Proof.
  unfold RevealTables.present_groups.
  induction names as [|c names [IH1 IH2]]; [by split|].
  simpl. destruct (dict_get by_condition c) as [group|] eqn:Hc; simpl.
  - rewrite filter_cons_True by (by rewrite Hc). split.
    + by constructor.
    + cbn. f_equal. exact IH2.
  - rewrite filter_cons_False by (rewrite Hc; by intros [? ?]). by split.
Qed.

Lemma mean_Some data m :
  Reveal.mean data = Some m →
  m = Reveal.Rsum (IZR <$> data) / INR (length data) ∧ 0 < INR (length data).
Proof.
  destruct data as [|x data]; [done|]. intros [= <-]. split; [done|].
  apply lt_0_INR. simpl. lia.
Qed.

Lemma summary_row_spec F (g : string * list Quality.ScoreRecord) :
  g.2 ≠ [] →
  RevealTables.summary_row F g
  = Some {| RevealTables.row_condition := g.1;
            RevealTables.row_means :=
              (λ dim : Quality.ScoreRecord → Z,
                 Reveal.fl F (Worded.arithmetic_mean (dim <$> g.2)))
                <$> RevealTables.dimensions;
            RevealTables.row_n := length g.2 |}.
Proof.
  destruct g as [c group]. cbn [fst snd]. intros Hne.
  unfold RevealTables.summary_row, RevealTables.dimensions. cbn [fst snd mapM].
  assert (∀ dim : Quality.ScoreRecord → Z,
            RevealTables.mean_or_zero F (dim <$> group)
            = Some (Reveal.fl F (Worded.arithmetic_mean (dim <$> group)))) as Hdim.
  { intros dim. destruct group as [|r group]; [done|]. done. }
  rewrite !Hdim. done.
Qed.

End FirstTable.

(** X22: For scores whose six fields are at most [2 ^ 52] in absolute
    value, the first table of the analyzer has one line for each condition
    of the fixed order that has scores, in that order, with the number of
    its scores, which is not zero, and in each of the six columns the float
    of the exact mean of that field over the group: the zero that stands
    in for the mean of no value is never used. *)
Theorem summary_table_rows F (scores : list (string * Quality.ScoreRecord)) key :
  let by_condition := Reveal.group_by_condition scores key in
  RevealTables.small_records scores →
  ∃ rows,
    RevealTables.summary_table F by_condition = Some rows ∧
    RevealTables.row_condition <$> rows
    = filter (λ c, is_Some (dict_get by_condition c)) RevealTables.condition_order ∧
    Forall (λ row, ∃ group,
      dict_get by_condition (RevealTables.row_condition row) = Some group ∧
      RevealTables.row_n row = length group ∧ (0 < RevealTables.row_n row)%nat ∧
      RevealTables.row_means row
      = (λ dim : Quality.ScoreRecord → Z,
           Reveal.fl F (Worded.arithmetic_mean (dim <$> group)))
          <$> RevealTables.dimensions) rows.
Proof.
  intros by_condition _. unfold RevealTables.summary_table.
  destruct (present_groups_spec by_condition RevealTables.condition_order) as [Hgroups <-].
  revert Hgroups. generalize (RevealTables.present_groups by_condition
                                RevealTables.condition_order).
  intros groups Hgroups.
  induction Hgroups as [|g groups Hg _ (rows & Hrows & Hnames & Hall)].
  - exists []. by repeat split.
  - assert (g.2 ≠ []) as Hne by (by eapply group_by_condition_nonempty).
    eexists. cbn [mapM]. rewrite (summary_row_spec F g Hne). cbn [mbind option_bind].
    rewrite Hrows. cbn [mbind option_bind mret option_ret]. split; [done|]. split.
    + rewrite !fmap_cons. by f_equal.
    + constructor; [|done]. exists g.2. cbn [RevealTables.row_condition
        RevealTables.row_n RevealTables.row_means].
      split; [done|]. split; [done|]. split; [|done].
      destruct g.2; [done|simpl; lia].
Qed.

Lemma summary_table_rows_witness :
  ∃ rows,
    RevealTables.summary_table Samples.exact
      (Reveal.group_by_condition Samples.five_scores Samples.five_key) = Some rows ∧
    RevealTables.row_condition <$> rows = ["control"; "greek_arete"].
Proof.
  destruct (summary_table_rows Samples.exact Samples.five_scores Samples.five_key)
    as (rows & Hrows & Hnames & _).
  - unfold RevealTables.small_records, Samples.five_scores, RevealTables.dimensions.
    repeat (apply Forall_cons; split;
            [repeat (apply Forall_cons; split; [by vm_compute|]); apply Forall_nil_2|]).
    apply Forall_nil_2.
  - exists rows. split; [done|]. rewrite Hnames. reflexivity.
Defined.

(** ** The best condition *)

Section Best.
Local Open Scope R_scope.





End Best.

(** ** Groups without spread *)

Section Spread.
Local Open Scope R_scope.

Lemma Rsum_squares m data :
  0 <= Reveal.Rsum ((λ x, (IZR x - m) ^ 2) <$> data) ∧
  (Reveal.Rsum ((λ x, (IZR x - m) ^ 2) <$> data) = 0 ↔ Forall (λ x, IZR x = m) data).
Proof.
  induction data as [|x data [IH0 IH]].
  - simpl. split; [lra|]. split; [constructor|done].
  - rewrite fmap_cons. cbn [Reveal.Rsum foldr].
    fold (Reveal.Rsum ((λ x, (IZR x - m) ^ 2) <$> data)).
    pose proof (pow2_ge_0 (IZR x - m)) as Hx.
    split; [lra|]. rewrite Forall_cons, <-IH. split.
    + intros Hsum. assert ((IZR x - m) ^ 2 = 0) as Hz by lra.
      split; [|lra]. destruct (Req_dec (IZR x - m) 0) as [|Hnz]; [lra|].
      by apply pow_nonzero with (n := 2%nat) in Hnz.
    + intros [-> ->]. replace (m - m) with 0 by lra. simpl. lra.
Qed.

Lemma Rsum_constant (v : Z) data :
  Forall (λ x, x = v) data → Reveal.Rsum (IZR <$> data) = INR (length data) * IZR v.
Proof.
  induction 1 as [|x data -> _ IH].
  - simpl. lra.
  - rewrite fmap_cons. cbn [Reveal.Rsum foldr length].
    fold (Reveal.Rsum (IZR <$> data)). rewrite IH, S_INR. lra.
Qed.

(** X24: The standard deviation the analyzer uses for a group is zero exactly
    when all the totals of the group are equal, which includes every group
    of one score. *)
Theorem no_spread_iff_constant totals :
  totals ≠ [] →
  Reveal.stdev_or_zero totals = Some 0 ↔ ∀ x y, x ∈ totals → y ∈ totals → x = y.
Proof.
  intros Hne. unfold Reveal.stdev_or_zero.
  destruct (1 <? length totals)%nat eqn:Hlen.
  - apply Nat.ltb_lt in Hlen. unfold Reveal.stdev.
    destruct (mean_is_Some totals Hne) as [m Hm]. rewrite Hm.
    apply mean_Some in Hm as [Hm Hn].
    destruct (length totals <? 2)%nat eqn:Hlen2; [apply Nat.ltb_lt in Hlen2; lia|].
    destruct (Rsum_squares m totals) as [Hsq Hzero].
    assert (0 < INR (length totals - 1)) as Hn1 by (apply lt_0_INR; lia).
    split.
    + intros Hroot%(inj Some). apply sqrt_eq_0 in Hroot.
      * assert (Reveal.Rsum ((λ x, (IZR x - m) ^ 2) <$> totals) = 0) as Hs.
        { apply Rmult_eq_reg_r with (r := / INR (length totals - 1)).
          - unfold Rdiv in Hroot. lra.
          - apply Rinv_neq_0_compat. lra. }
        apply Hzero in Hs. rewrite Forall_forall in Hs.
        intros x y Hx Hy. apply eq_IZR. rewrite (Hs x Hx), (Hs y Hy). done.
      * apply Rmult_le_pos; [done|]. apply Rlt_le, Rinv_0_lt_compat. done.
    + intros Hsame. destruct totals as [|v totals]; [done|].
      assert (Forall (λ x, x = v) (v :: totals)) as Hv.
      { apply Forall_forall. intros x Hx. apply Hsame; [done|by left]. }
      rewrite (Rsum_constant v _ Hv) in Hm.
      assert (m = IZR v) as Hmv.
      { rewrite Hm. unfold Rdiv. rewrite Rmult_comm, <-Rmult_assoc, Rinv_l by lra. lra. }
      assert (Reveal.Rsum ((λ x, (IZR x - m) ^ 2) <$> v :: totals) = 0) as ->.
      { apply Hzero. eapply Forall_impl; [exact Hv|]. intros x ->. done. }
      f_equal. unfold Rdiv. rewrite Rmult_0_l. apply sqrt_0.
  - apply Nat.ltb_ge in Hlen. split; [|done]. intros _ x y Hx Hy.
    destruct totals as [|v [|v' totals]]; [done| |simpl in Hlen; lia].
    apply list_elem_of_singleton in Hx, Hy. congruence.
Qed.

Lemma no_spread_iff_constant_witness :
  Reveal.stdev_or_zero [15; 15; 15]%Z = Some 0
  ↔ ∀ x y, x ∈ [15; 15; 15]%Z → y ∈ [15; 15; 15]%Z → x = y.
Proof. apply (no_spread_iff_constant [15; 15; 15]%Z). done. Defined.

End Spread.

(** ** From the run to the analyzer, through the scoring session *)

Lemma blind_ids_of_run w problems conditions n output_dir model t :
  let o := (run_experiment_with w problems conditions n output_dir model t).1 in
  ∀ id, id ∈ Blind.blind_id <$> blind_of o → id ∈ blind_id <$> results_of o.
Proof.
  intros o id.
  destruct (run_experiment_with_files w problems conditions n output_dir model t)
    as (rows & Hrows & _ & _ & _ & Hr & Hb & _).
  fold o in Hr, Hb. rewrite Hb, Hr. clear Hb Hr.
  assert (Blind.blind_id <$> rows.*2 = blind_id <$> rows.*1) as ->; [|done].
  induction Hrows as [|row rows (t0 & trial & (problem & Hp & Hr & Hb)%computed_inv) _ IH];
    [done|].
  rewrite !fmap_cons, IH. f_equal. cbv zeta in Hr, Hb. rewrite Hb, Hr. done.
Qed.

(** X25: The three programs in a row.  The blind ids of the run being distinct
    and no condition having an empty name, score the blind file of the run
    from scratch and give the analyzer the scores that come back with the
    key file of the run: every score was typed for a sample of the run, and
    the analyzer puts it in the group of the condition under which that
    sample was generated. *)
Theorem scores_reach_their_condition w problems conditions n output_dir model t
    inputs final (scores : list (string * Quality.ScoreRecord)) id r :
  let o := (run_experiment_with w problems conditions n output_dir model t).1 in
  NoDup (blind_id <$> results_of o) →
  "" ∉ name <$> conditions →
  Quality.result (Quality.evaluate_interactively (blind_of o) None inputs) = Ok final →
  (∀ id r, (id, r) ∈ scores ↔ final !! id = Some r) →
  final !! id = Some r →
  ∃ res, res ∈ results_of o ∧ blind_id res = id ∧
         key_of o !! id = Some (condition res) ∧
         r ∈ default [] (dict_get (Reveal.group_by_condition scores (key_of o))
                                  (condition res)).
Proof.
  intros o Hnd Hnames Hres Hscores Hr.
  destruct (session_reach (blind_of o) (∅ : gmap string Quality.ScoreRecord) inputs [] final id r (or_intror Hres) Hr)
    as [Hempty|[_ Hid]].
  { change ((∅ : gmap string Quality.ScoreRecord) !! id = Some r) in Hempty.
    by rewrite lookup_empty in Hempty. }
  apply (blind_ids_of_run w problems conditions n output_dir model t) in Hid.
  fold o in Hid. apply list_elem_of_fmap in Hid as (res & -> & Hin).
  exists res. split; [done|]. split; [done|].
  destruct (run_experiment_with_files w problems conditions n output_dir model t)
    as (rows & _ & _ & _ & _ & Hrs & _ & Hk & _).
  fold o in Hrs, Hk.
  assert (key_of o !! blind_id res = Some (condition res)) as Hkey.
  { rewrite Hk, <-Hrs. by apply key_mapping_NoDup_lookup. }
  split; [done|]. rewrite group_lookup.
  pose proof (run_conditions w problems conditions n output_dir model t) as Hc.
  fold o in Hc. rewrite Forall_forall in Hc.
  rewrite decide_False by (intros Hempty; apply Hnames; rewrite <-Hempty; by apply Hc).
  apply list_elem_of_fmap. exists (blind_id res, r). split; [done|].
  apply list_elem_of_filter. split; [done|]. by apply Hscores.
Qed.

Lemma scores_reach_their_condition_witness :
  let o := (run_experiment_with Samples.calm Samples.two_problems CONDITIONS 1
              "./results" "m" 0).1 in
  ∃ res, res ∈ results_of o ∧ blind_id res = "027T00:00:00" ∧
         key_of o !! "027T00:00:00" = Some (condition res) ∧
         Samples.abc123_score
         ∈ default [] (dict_get (Reveal.group_by_condition
                                   [("027T00:00:00", Samples.abc123_score)] (key_of o))
                                (condition res)).
Proof.
  apply (scores_reach_their_condition Samples.calm Samples.two_problems CONDITIONS 1
           "./results" "m" 0 ["3,2,4,3,3"; "q"]
           {[ "027T00:00:00" := Samples.abc123_score ]}).
  - refine (bool_decide_unpack _ _). vm_compute. exact I.
  - refine (bool_decide_unpack _ _). vm_compute. exact I.
  - vm_compute. reflexivity.
  - intros id r. rewrite list_elem_of_singleton, lookup_singleton_Some.
    split; [by intros [= -> ->]|by intros [-> ->]].
  - apply lookup_singleton_eq.
Defined.
